(** * Badminton tactic board: the geometric and tactical engine

    A shallow embedding of the script of the board view (defense radius,
    heatmap and furthest point, auto-rotation solver, eased motion, drag
    clamp) and the properties its specification states about it.

    Numbers.  The script computes on JavaScript numbers.  They are modelled
    as real numbers with exact arithmetic ([Math.abs] is [Rabs], [Math.min]
    and [Math.max] are [Rmin] and [Rmax], [Math.sqrt] is [sqrt]); rounding
    and NaN are outside the model.  The one non-finite value the script
    creates on purpose, [Infinity], is kept as a value of its own ([num]). *)

From Stdlib Require Import Reals Lra Lia ZArith List String Bool.
Import ListNotations.

Open Scope R_scope.

(** ** Numbers *)

Module Num.

(** [a < b] and [a > b] as the script's conditions use them. *)
Definition ltb (a b : R) : bool := if Rlt_dec a b then true else false.
Definition gtb (a b : R) : bool := ltb b a.

(** A number that may be [Infinity]. *)
Inductive num : Type :=
| Fin (r : R)
| Inf.

Definition num_ltb (a b : num) : bool :=
  match a, b with
  | Fin r, Fin s => ltb r s
  | Fin _, Inf => true
  | Inf, _ => false
  end.

Definition num_gtb (a b : num) : bool := num_ltb b a.

(** [a || 1]: a number is falsy exactly when it is zero. *)
Definition or1 (a : R) : R := if Req_dec_T a 0 then 1 else a.

(** [Math.sign]. *)
Definition sign (a : R) : R :=
  if Rlt_dec 0 a then 1 else if Rlt_dec a 0 then -1 else 0.

(** [for (let i = start; i <= stop; i += step)]: the values the loop
    variable takes.  With a positive step, [stop - start + 1] rounds are
    enough for the loop to run to its end. *)
Fixpoint forUpTo (fuel : nat) (i stop step : Z) : list Z :=
  match fuel with
  | O => []
  | S k => if (i <=? stop)%Z then i :: forUpTo k (i + step) stop step else []
  end.

Definition forRange (start stop step : Z) : list Z :=
  forUpTo (Z.to_nat (stop - start + 1)) start stop step.

End Num.

Import Num.

(** ** Types and constants *)

Record Player : Type := mkPlayer {
  id : string;
  label : string;
  x : R;
  y : R;
  color : string;
  defenseRadius : R
}.

Definition COURT_WIDTH : R := 610.
Definition COURT_HEIGHT : R := 1340.
Definition PLAYER_RADIUS : R := 15.
Definition DEFENSE_RADIUS_NET : R := 120.
Definition DEFENSE_RADIUS_BACK : R := 240.

(** The roster the view starts with. *)
Definition players0 : list Player :=
  [ mkPlayer "A1" "A1" 150 1050 "bg-blue-500" 0;
    mkPlayer "A2" "A2" 460 1050 "bg-blue-500" 0;
    mkPlayer "B1" "B1" 150 200 "bg-red-500" 0;
    mkPlayer "B2" "B2" 460 200 "bg-red-500" 0 ].

(** [p.id.startsWith('A')] *)
Definition startsWithA (p : Player) : bool := String.prefix "A" (id p).

(** ** Defense range *)

Definition calculateDefenseRadius (py : R) : R :=
  let NET_Y := 670 in
  let distFromNet := Rabs (py - NET_Y) in
  let maxDist := 670 in
  let t := distFromNet / maxDist in
  DEFENSE_RADIUS_NET + t * (DEFENSE_RADIUS_BACK - DEFENSE_RADIUS_NET).

(** The watcher that stores the radius of every player after a change. *)
Definition refreshRadius (p : Player) : Player :=
  mkPlayer (id p) (label p) (x p) (y p) (color p) (calculateDefenseRadius (y p)).

Definition refreshRadii (ps : list Player) : list Player := map refreshRadius ps.

(** ** Heatmap and furthest point *)

(** One [fillRect] of the heatmap, with the alpha of its fill style. *)
Record Cell : Type := mkCell {
  cell_x : R;
  cell_y : R;
  cell_w : R;
  cell_h : R;
  cell_alpha : R
}.

(** The circle of the furthest-point marker. *)
Record Marker : Type := mkMarker {
  drawX : R;
  drawY : R;
  markerR : R
}.

(** What one pass leaves on the (cleared) canvas. *)
Record Canvas : Type := mkCanvas {
  cells : list Cell;
  marker : option Marker
}.

(** The variables the scan carries from cell to cell. *)
Record Scan : Type := mkScan {
  maxDist : num;
  maxPoint : R * R;
  painted : list Cell
}.

Definition gridSize : Z := 10.

(** The body of [for (const p of teamA)] at the sample [(cx, cy)]. *)
Definition visit (cx cy : R) (acc : num * num) (p : Player) : num * num :=
  let '(minRatio, minDist) := acc in
  let dx := cx - x p in
  let dy := cy - y p in
  let dist := sqrt (dx * dx + dy * dy) in
  let radius := or1 (defenseRadius p) in
  let ratio := dist / radius in
  (if num_ltb (Fin ratio) minRatio then Fin ratio else minRatio,
   if num_ltb (Fin dist) minDist then Fin dist else minDist).

(** [(minRatio, minDist)] of a sample once the team has been visited. *)
Definition evaluate (team : list Player) (cx cy : R) : num * num :=
  fold_left (visit cx cy) team (Inf, Inf).

(** [((minRatio - 0.5) / 2.0) * 0.5]; on [Infinity] the subtraction, the
    division and the product by positive constants give [Infinity]. *)
Definition alphaRaw (minRatio : num) : num :=
  match minRatio with
  | Fin r => Fin (((r - 0.5) / 2.0) * 0.5)
  | Inf => Inf
  end.

(** [Math.min(Math.max(alpha, 0), 0.5)] *)
Definition clampAlpha (alpha : num) : R :=
  match alpha with
  | Fin a => Rmin (Rmax a 0) 0.5
  | Inf => 0.5
  end.

(** The alpha of a sample: computed only under [minRatio > 0.5]. *)
Definition cellAlpha (minRatio : num) : option R :=
  if num_gtb minRatio (Fin 0.5) then Some (clampAlpha (alphaRaw minRatio))
  else None.


(** [fillRect(x - gridSize/2, y - gridSize/2, gridSize, gridSize)] under
    the fill style [rgba(255, 0, 0, alpha)]. *)
Definition fillCell (cx cy alpha : R) : Cell :=
  mkCell (cx - IZR gridSize / 2) (cy - IZR gridSize / 2)
    (IZR gridSize) (IZR gridSize) alpha.

(** The body of the inner loop at the sample [(cx, cy)]. *)
Definition sample (team : list Player) (cy : R) (st : Scan) (cx : R) : Scan :=
  let '(minRatio, minDist) := evaluate team cx cy in
  let st1 :=
    if num_gtb minDist (maxDist st) then mkScan minDist (cx, cy) (painted st)
    else st in
  match cellAlpha minRatio with
  | Some alpha =>
      if gtb alpha 0.05 then
        mkScan (maxDist st1) (maxPoint st1)
          (painted st1 ++ [fillCell cx cy alpha])
      else st1
  | None => st1
  end.

(** The values of the loop variables [x] and [y]. *)
Definition columns : list Z := forRange 0 610 gridSize.
Definition rows : list Z :=
  let startY := 670%Z in
  let endY := 1340%Z in
  forRange startY endY gridSize.

Definition scanRow (team : list Player) (st : Scan) (cy : Z) : Scan :=
  fold_left (fun s cx => sample team (IZR cy) s (IZR cx)) columns st.

Definition scanGrid (team : list Player) : Scan :=
  fold_left (scanRow team) rows (mkScan (Fin 0) (0, 0) []).

(** The samples [(x, y)] in the order the two loops reach them: rows from
    the net to the back line, each from left to right. *)
Definition gridCells : list (Z * Z) :=
  flat_map (fun cy => map (fun cx => (cx, cy)) columns) rows.

(** [minDist] of the sample [c]. *)
Definition minDistAt (team : list Player) (c : Z * Z) : num :=
  snd (evaluate team (IZR (fst c)) (IZR (snd c))).

(** The marker drawn after the scan, under [maxDist > 0]. *)
Definition furthestMarker (st : Scan) : option Marker :=
  if num_gtb (maxDist st) (Fin 0) then
    let r := 30 in
    let drawX := Rmax r (Rmin (fst (maxPoint st)) (COURT_WIDTH - r)) in
    let minDrawY := 670 + r in
    let maxDrawY := COURT_HEIGHT - r in
    let drawY := Rmax minDrawY (Rmin (snd (maxPoint st)) maxDrawY) in
    Some (mkMarker drawX drawY r)
  else None.

(** One pass over a canvas that exists. *)
Definition updateHeatmap (players : list Player) : Canvas :=
  let teamA := filter startsWithA players in
  let st := scanGrid teamA in
  mkCanvas (painted st) (furthestMarker st).

(** ** Auto-rotation *)

(** The object [{ x, y }] the solver returns. *)
Record Point : Type := mkPoint {
  pt_x : R;
  pt_y : R
}.

Definition centerX : R := COURT_WIDTH / 2.
Definition NET_Y : R := 670.
Definition BACK_LINE_Y : R := 1340.
Definition CENTER_Y : R := (NET_Y + BACK_LINE_Y) / 2.
Definition ATTACK_THRESHOLD : R := 1200.
Definition NET_THRESHOLD : R := 900.

(** The state determination: [(targetX, targetY)] as the three branches
    leave them, before the clamp. *)
Definition stateTarget (movingPlayer : Player) : R * R :=
  if gtb (y movingPlayer) ATTACK_THRESHOLD then
    let targetY := 920 in
    let dx := x movingPlayer - centerX in
    let attackBias := 0.2 in
    let targetX := centerX + dx * attackBias in
    (targetX, targetY)
  else if ltb (y movingPlayer) NET_THRESHOLD then
    let yDistFromCenter := CENTER_Y - y movingPlayer in
    let netPivotFactor := 0.25 in
    let targetY := CENTER_Y + yDistFromCenter * netPivotFactor in
    let targetY := Rmin targetY 1300 in
    let dx := x movingPlayer - centerX in
    let coverageFactor := 0.2 in
    let targetX := centerX - dx * coverageFactor in
    (targetX, targetY)
  else
    let yDiff := y movingPlayer - CENTER_Y in
    let targetY := CENTER_Y - yDiff * 0.5 in
    let dx := x movingPlayer - centerX in
    let baseDefenseWidth := 260 in
    let compressionFactor := 0.8 in
    let targetOffset := baseDefenseWidth - Rabs dx * compressionFactor in
    let targetOffset := Rmax 20 targetOffset in
    let targetX := centerX - sign (or1 dx) * targetOffset in
    (targetX, targetY).

(** The clamp that concludes the solver. *)
Definition safetyClamp (target : R * R) : Point :=
  let '(targetX, targetY) := target in
  let currentRadius := calculateDefenseRadius targetY in
  let edgeMargin := Rmax PLAYER_RADIUS (currentRadius * 0.5) in
  let targetX := Rmax edgeMargin (Rmin targetX (COURT_WIDTH - edgeMargin)) in
  let targetY :=
    Rmax (NET_Y + edgeMargin) (Rmin targetY (COURT_HEIGHT - edgeMargin)) in
  mkPoint targetX targetY.

Definition calculateOptimalPosition (movingPlayer _teammate : Player) : Point :=
  safetyClamp (stateTarget movingPlayer).

(** ** Eased motion *)

(** What [animatePlayerMove] captures when it is called: the position of
    the player then, the target, the duration and [performance.now()]. *)
Record Motion : Type := mkMotion {
  startX : R;
  startY : R;
  targetX : R;
  targetY : R;
  duration : R;
  startTime : R
}.

Definition animatePlayerMove
    (player : Player) (tx ty : R) (dur : R) (now : R) : Motion :=
  mkMotion (x player) (y player) tx ty dur now.

Definition easeProgress (m : Motion) (currentTime : R) : R :=
  let elapsed := currentTime - startTime m in
  let progress := Rmin (elapsed / duration m) 1 in
  1 - (1 - progress) ^ 2.

(** One frame: the player after the callback ran at [currentTime], and
    whether the callback asked for another frame ([progress < 1]). *)
Definition animate (m : Motion) (player : Player) (currentTime : R)
    : Player * bool :=
  let elapsed := currentTime - startTime m in
  let progress := Rmin (elapsed / duration m) 1 in
  let easeProgress := 1 - (1 - progress) ^ 2 in
  (mkPlayer (id player) (label player)
     (startX m + (targetX m - startX m) * easeProgress)
     (startY m + (targetY m - startY m) * easeProgress)
     (color player) (defenseRadius player),
   ltb progress 1).

(** ** Dragging *)

(** The [move] listener on the player it found. *)
Definition dragMove (scaleFactor : R) (player : Player) (edx edy : R) : Player :=
  let newX := x player + edx / scaleFactor in
  let newY := y player + edy / scaleFactor in
  let r := PLAYER_RADIUS in
  let newX := Rmax r (Rmin newX (COURT_WIDTH - r)) in
  let '(minY, maxY) :=
    if startsWithA player then (NET_Y + r, COURT_HEIGHT - r)
    else (r, NET_Y - r) in
  let newY := Rmax minY (Rmin newY maxY) in
  mkPlayer (id player) (label player) newX newY (color player)
    (defenseRadius player).

(** The [end] listener: the motion it starts for the teammate, if any. *)
Definition dragEnd (autoRotationEnabled : bool) (players : list Player)
    (targetId : string) (now : R) : option (Player * Motion) :=
  match find (fun p => String.eqb (id p) targetId) players with
  | Some player =>
      if autoRotationEnabled && startsWithA player then
        match find (fun p => startsWithA p && negb (String.eqb (id p) (id player)))
                players with
        | Some teammate =>
            let optimalPos := calculateOptimalPosition player teammate in
            Some (teammate,
                  animatePlayerMove teammate (pt_x optimalPos) (pt_y optimalPos)
                    400 now)
        | None => None
        end
      else None
  | None => None
  end.

(** Team A's legal half, as the drag clamp bounds it. *)
Definition inHalfA (px py : R) : Prop :=
  15 <= px <= 595 /\ 685 <= py <= 1325.

(** Team B's legal half, likewise. *)
Definition inHalfB (px py : R) : Prop :=
  15 <= px <= 595 /\ 15 <= py <= 655.

(** ** Vocabulary of the statements *)

(** The order on numbers that may be [Infinity]. *)
Definition num_lt (a b : num) : Prop := num_ltb a b = true.
Definition num_le (a b : num) : Prop := num_ltb b a = false.

(** [dist] and [ratio] of the player [p] at the sample [(cx, cy)]. *)
Definition distTo (cx cy : R) (p : Player) : R :=
  sqrt ((cx - x p) * (cx - x p) + (cy - y p) * (cy - y p)).

Definition ratioTo (cx cy : R) (p : Player) : R :=
  distTo cx cy p / or1 (defenseRadius p).

(** The [fillRect] calls one sample adds: one, or none. *)
Definition paintAt (team : list Player) (cx cy : R) : list Cell :=
  match cellAlpha (fst (evaluate team cx cy)) with
  | Some alpha => if gtb alpha 0.05 then [fillCell cx cy alpha] else []
  | None => []
  end.

(** A sample as the pair of numbers the two loop variables hold. *)
Definition coords (c : Z * Z) : R * R := (IZR (fst c), IZR (snd c)).

(** A player mirrored about the centre line [x = centerX] of the court. *)
Definition mirror (p : Player) : Player :=
  mkPlayer (id p) (label p) (COURT_WIDTH - x p) (y p) (color p)
    (defenseRadius p).

(** The frames of one motion, as the host runs them: the callback is called
    at the times the host supplies, one after the other, for as long as the
    previous call asked for another frame.  The result is the player after
    the last call made and whether a further frame is still requested. *)
Fixpoint runFrames (m : Motion) (player : Player) (times : list R)
    : Player * bool :=
  match times with
  | [] => (player, true)
  | t :: ts =>
      let '(player', again) := animate m player t in
      if again then runFrames m player' ts else (player', false)
  end.

(** ** The view as a whole *)

(** The listeners find the object to change with [players.value.find]:
    the first player the test accepts is changed, the others are kept. *)
Fixpoint updateFirst (test : Player -> bool) (change : Player -> Player)
    (players : list Player) : list Player :=
  match players with
  | [] => []
  | p :: rest =>
      if test p then change p :: rest
      else p :: updateFirst test change rest
  end.

(** The state of the view: the roster, the motion in flight with the id of
    the player it moves, and the switch of the control panel. *)
Record App : Type := mkApp {
  roster : list Player;
  inFlight : option (string * Motion);
  autoRotation : bool
}.

(** What happens to the view: a step of a drag, the end of a drag, a frame
    of the host at time [t], a click on the switch. *)
Inductive Event : Type :=
| DragStep (targetId : string) (scaleFactor edx edy : R)
| DragEnd (targetId : string) (now : R)
| AnimationFrame (t : R)
| ToggleAutoRotation.

(** The view at start: the watcher has run once, nothing moves, the switch
    is off. *)
Definition app0 : App := mkApp (refreshRadii players0) None false.

(** One event.  The watcher runs after every change of a position.  The
    end of a drag replaces the motion in flight only when it starts one. *)
Definition handle (a : App) (ev : Event) : App :=
  match ev with
  | DragStep targetId scaleFactor edx edy =>
      mkApp (refreshRadii
               (updateFirst (fun p => String.eqb (id p) targetId)
                  (fun p => dragMove scaleFactor p edx edy) (roster a)))
            (inFlight a) (autoRotation a)
  | DragEnd targetId now =>
      match dragEnd (autoRotation a) (roster a) targetId now with
      | Some (teammate, m) =>
          mkApp (roster a) (Some (id teammate, m)) (autoRotation a)
      | None => a
      end
  | AnimationFrame t =>
      match inFlight a with
      | Some (tid, m) =>
          mkApp (refreshRadii
                   (updateFirst (fun p => String.eqb (id p) tid)
                      (fun p => fst (animate m p t)) (roster a)))
                (if ltb (Rmin ((t - startTime m) / duration m) 1) 1
                 then Some (tid, m) else None)
                (autoRotation a)
      | None => a
      end
  | ToggleAutoRotation =>
      mkApp (roster a) (inFlight a) (negb (autoRotation a))
  end.

(** The host calls a frame of a motion at a time not before its start. *)
Definition timely (a : App) (ev : Event) : Prop :=
  match ev, inFlight a with
  | AnimationFrame t, Some (_, m) => startTime m <= t
  | _, _ => True
  end.

(** The states the view can reach from its start. *)
Inductive reachable : App -> Prop :=
| reach_start : reachable app0
| reach_event (a : App) (ev : Event) :
    reachable a -> timely a ev -> reachable (handle a ev).

(** A player on its own side of the net. *)
Definition inOwnHalf (p : Player) : Prop :=
  if startsWithA p then inHalfA (x p) (y p) else inHalfB (x p) (y p).

(** * Properties *)

(** ** Facts on numbers *)

(** Case analysis on [Rabs], and on [Rmax] and [Rmin], closed by linear
    arithmetic. *)
Ltac abs_cases := unfold Rabs; repeat destruct Rcase_abs; try lra.
Ltac minmax_cases :=
  unfold Rmax, Rmin; repeat destruct Rle_dec; try lra.

Lemma ltb_true (a b : R) : a < b -> ltb a b = true.
Proof. intros H. unfold ltb. destruct (Rlt_dec a b); [reflexivity | contradiction]. Qed.

Lemma ltb_false (a b : R) : b <= a -> ltb a b = false.
Proof. intros H. unfold ltb. destruct (Rlt_dec a b); [lra | reflexivity]. Qed.

Lemma ltb_spec (a b : R) : ltb a b = true <-> a < b.
Proof.
  unfold ltb. destruct (Rlt_dec a b); split; intros; auto; discriminate.
Qed.

Lemma gtb_true (a b : R) : b < a -> gtb a b = true.
Proof. apply ltb_true. Qed.

Lemma gtb_false (a b : R) : a <= b -> gtb a b = false.
Proof. apply ltb_false. Qed.

Lemma or1_nonzero (a : R) : a <> 0 -> or1 a = a.
Proof. intros H. unfold or1. destruct (Req_dec_T a 0); [contradiction | reflexivity]. Qed.

Lemma or1_zero : or1 0 = 1.
Proof. unfold or1. destruct (Req_dec_T 0 0); [reflexivity | contradiction]. Qed.

Lemma or1_neq0 (a : R) : or1 a <> 0.
Proof. unfold or1. destruct (Req_dec_T a 0); [lra | assumption]. Qed.

Lemma sign_pos (a : R) : 0 < a -> sign a = 1.
Proof. intros H. unfold sign. destruct (Rlt_dec 0 a); [reflexivity | contradiction]. Qed.

Lemma sign_neg (a : R) : a < 0 -> sign a = -1.
Proof.
  intros H. unfold sign.
  destruct (Rlt_dec 0 a); [lra |].
  destruct (Rlt_dec a 0); [reflexivity | contradiction].
Qed.

Lemma clamp_bounds (lo hi v : R) : lo <= hi -> lo <= Rmax lo (Rmin v hi) <= hi.
Proof.
  intros H. split.
  - apply Rmax_l.
  - apply Rmax_lub; [assumption | apply Rmin_r].
Qed.

Lemma clamp_id (lo hi v : R) : lo <= v <= hi -> Rmax lo (Rmin v hi) = v.
Proof.
  intros [H1 H2]. rewrite Rmin_left by assumption. apply Rmax_right. assumption.
Qed.

(** ** Properties of the defense radius *)

Lemma radius_unfold (py : R) :
  calculateDefenseRadius py = 120 + Rabs (py - 670) / 670 * 120.
Proof.
  unfold calculateDefenseRadius, DEFENSE_RADIUS_NET, DEFENSE_RADIUS_BACK.
  cbv zeta. lra.
Qed.

Lemma radius_ge_net (py : R) : 120 <= calculateDefenseRadius py.
Proof.
  rewrite radius_unfold.
  pose proof (Rabs_pos (py - 670)) as Hp. lra.
Qed.

(** C3: the radius is 120 at the net, 240 at the back line, and grows with
    the distance from the net: [|y1 - 670| <= |y2 - 670|] gives
    [radius y1 <= radius y2]. *)
Theorem radius_net_back_monotone :
  calculateDefenseRadius 670 = 120 /\
  calculateDefenseRadius 1340 = 240 /\
  forall y1 y2 : R,
    Rabs (y1 - 670) <= Rabs (y2 - 670) ->
    calculateDefenseRadius y1 <= calculateDefenseRadius y2.
Proof.
  repeat split.
  - rewrite radius_unfold.
    replace (670 - 670) with 0 by lra. rewrite Rabs_R0. lra.
  - rewrite radius_unfold.
    replace (1340 - 670) with 670 by lra.
    rewrite Rabs_pos_eq by lra. lra.
  - intros y1 y2 H. rewrite !radius_unfold. lra.
Qed.

Lemma radius_net_back_monotone_witness :
  Rabs (800 - 670) <= Rabs (400 - 670) /\
  calculateDefenseRadius 800 <= calculateDefenseRadius 400.
Proof.
  assert (H : Rabs (800 - 670) <= Rabs (400 - 670)).
  { abs_cases. }
  split; [exact H |].
  exact (proj2 (proj2 radius_net_back_monotone) 800 400 H).
Defined.

(** ** The drag clamp and the radius it leads to *)

Lemma dragMove_y_range (scaleFactor : R) (player : Player) (edx edy : R) :
  15 <= y (dragMove scaleFactor player edx edy) <= 1325.
Proof.
  unfold dragMove, PLAYER_RADIUS, COURT_HEIGHT, NET_Y.
  destruct (startsWithA player); cbn [y].
  - pose proof (clamp_bounds (670 + 15) (1340 - 15)
                  (y player + edy / scaleFactor)) as H. lra.
  - pose proof (clamp_bounds 15 (670 - 15)
                  (y player + edy / scaleFactor)) as H. lra.
Qed.

Lemma dragMove_teamA_half (scaleFactor : R) (player : Player) (edx edy : R) :
  startsWithA player = true ->
  inHalfA (x (dragMove scaleFactor player edx edy))
          (y (dragMove scaleFactor player edx edy)).
Proof.
  intros HA. unfold inHalfA, dragMove, PLAYER_RADIUS, COURT_HEIGHT, COURT_WIDTH, NET_Y.
  rewrite HA. cbn [x y].
  pose proof (clamp_bounds (670 + 15) (1340 - 15)
                (y player + edy / scaleFactor)) as Hy.
  pose proof (clamp_bounds 15 (610 - 15)
                (x player + edx / scaleFactor)) as Hx.
  lra.
Qed.

Lemma radius_le_back (py : R) : 0 <= py <= 1340 -> calculateDefenseRadius py <= 240.
Proof.
  intros H. rewrite radius_unfold.
  assert (Ha : Rabs (py - 670) <= 670) by (apply Rabs_le; lra).
  lra.
Qed.

(** C9: on the court, [0 <= y <= 1340], the radius lies in [[120, 240]];
    so a player whose [y] is what the drag clamp produced and whose stored
    radius is the radius at that [y] has a non-zero radius, and the
    evaluator's [|| 1] leaves it as it is. *)
Theorem radius_range_no_fallback :
  (forall py : R, 0 <= py <= 1340 ->
     120 <= calculateDefenseRadius py <= 240) /\
  (forall (p dragged : Player) (scaleFactor edx edy : R),
     y p = y (dragMove scaleFactor dragged edx edy) ->
     defenseRadius p = calculateDefenseRadius (y p) ->
     120 <= defenseRadius p <= 240 /\
     defenseRadius p <> 0 /\
     or1 (defenseRadius p) = defenseRadius p).
Proof.
  assert (Hrange : forall py : R, 0 <= py <= 1340 ->
                     120 <= calculateDefenseRadius py <= 240).
  { intros py H. split; [apply radius_ge_net | apply radius_le_back; exact H]. }
  split; [exact Hrange |].
  intros p dragged scaleFactor edx edy Hy Hr.
  pose proof (dragMove_y_range scaleFactor dragged edx edy) as Hb.
  rewrite <- Hy in Hb.
  assert (H : 120 <= defenseRadius p <= 240).
  { rewrite Hr. apply Hrange. lra. }
  split; [exact H |].
  split; [lra |].
  apply or1_nonzero. lra.
Qed.

Lemma radius_range_no_fallback_witness :
  let a1 := mkPlayer "A1" "A1" 150 1050 "bg-blue-500" 0 in
  let p := refreshRadius (dragMove 1 a1 25 (-2000)) in
  y p = 685 /\
  120 <= defenseRadius p <= 240 /\
  defenseRadius p <> 0 /\
  or1 (defenseRadius p) = defenseRadius p.
Proof.
  intros a1 p. split.
  - unfold p, a1, refreshRadius, dragMove, PLAYER_RADIUS, COURT_HEIGHT, NET_Y.
    cbn [startsWithA id String.prefix y x].
    cbn.
    rewrite Rmin_left by lra. rewrite Rmax_left by lra. lra.
  - apply (proj2 radius_range_no_fallback p a1 1 25 (-2000)); reflexivity.
Defined.

(** ** The auto-rotation solver *)

Lemma radius_at_920 : calculateDefenseRadius 920 = 120 + 250 / 670 * 120.
Proof. rewrite radius_unfold. rewrite Rabs_pos_eq by lra. lra. Qed.

Lemma radius_at_1005 : calculateDefenseRadius 1005 = 180.
Proof. rewrite radius_unfold. rewrite Rabs_pos_eq by lra. lra. Qed.

Lemma stateTarget_attack (movingPlayer : Player) :
  1200 < y movingPlayer ->
  stateTarget movingPlayer =
  (centerX + (x movingPlayer - centerX) * 0.2, 920).
Proof.
  intros H. unfold stateTarget, ATTACK_THRESHOLD.
  rewrite gtb_true by exact H. reflexivity.
Qed.

Lemma stateTarget_defense (movingPlayer : Player) :
  900 <= y movingPlayer <= 1200 ->
  stateTarget movingPlayer =
  (centerX -
   sign (or1 (x movingPlayer - centerX)) *
   Rmax 20 (260 - Rabs (x movingPlayer - centerX) * 0.8),
   CENTER_Y - (y movingPlayer - CENTER_Y) * 0.5).
Proof.
  intros [H1 H2]. unfold stateTarget, ATTACK_THRESHOLD, NET_THRESHOLD.
  rewrite gtb_false by exact H2.
  rewrite ltb_false by exact H1. reflexivity.
Qed.

(** C6: for a mover in the deep back court, [y > 1200], anywhere in Team
    A's half, the branch proposes [y = 920] and
    [x = centerX + (mover.x - centerX) * 0.2], and the solver returns
    exactly that point: the concluding clamp changes neither coordinate. *)
Theorem attack_target_unclamped (movingPlayer teammate : Player) :
  1200 < y movingPlayer ->
  inHalfA (x movingPlayer) (y movingPlayer) ->
  stateTarget movingPlayer =
    (centerX + (x movingPlayer - centerX) * 0.2, 920) /\
  calculateOptimalPosition movingPlayer teammate =
    mkPoint (centerX + (x movingPlayer - centerX) * 0.2) 920.
Proof.
  intros Hy [[Hx1 Hx2] _].
  split; [apply stateTarget_attack; exact Hy |].
  unfold calculateOptimalPosition.
  rewrite stateTarget_attack by exact Hy.
  unfold safetyClamp. rewrite radius_at_920.
  unfold PLAYER_RADIUS, COURT_WIDTH, COURT_HEIGHT, NET_Y, centerX, COURT_WIDTH.
  rewrite (Rmax_right 15) by lra.
  f_equal; apply clamp_id; lra.
Qed.

Lemma attack_target_unclamped_witness :
  let a1 := mkPlayer "A1" "A1" 500 1250 "bg-blue-500" 0 in
  let a2 := mkPlayer "A2" "A2" 460 1050 "bg-blue-500" 0 in
  calculateOptimalPosition a1 a2 = mkPoint 344 920.
Proof.
  intros a1 a2.
  assert (Hy : 1200 < y a1) by (cbn; lra).
  assert (Hh : inHalfA (x a1) (y a1)) by (unfold inHalfA; cbn; lra).
  rewrite (proj2 (attack_target_unclamped a1 a2 Hy Hh)).
  unfold centerX, COURT_WIDTH. cbn [x a1]. f_equal. lra.
Defined.

Lemma stateTarget_center (movingPlayer : Player) :
  x movingPlayer = centerX ->
  y movingPlayer = 1005 ->
  stateTarget movingPlayer = (centerX - 260, 1005).
Proof.
  intros Hx Hy.
  rewrite stateTarget_defense by (rewrite Hy; lra).
  rewrite Hx, Hy.
  replace (centerX - centerX) with 0 by lra.
  rewrite or1_zero, sign_pos by lra.
  rewrite Rabs_R0. rewrite Rmax_right by lra.
  unfold CENTER_Y, NET_Y, BACK_LINE_Y. f_equal; lra.
Qed.

Lemma safetyClamp_wide_center :
  safetyClamp (centerX - 260, 1005) = mkPoint 90 1005.
Proof.
  unfold safetyClamp. rewrite radius_at_1005.
  unfold PLAYER_RADIUS, COURT_WIDTH, COURT_HEIGHT, NET_Y, centerX, COURT_WIDTH.
  rewrite (Rmax_right 15) by lra.
  f_equal.
  - rewrite Rmin_left by lra. rewrite Rmax_left by lra. lra.
  - apply clamp_id; lra.
Qed.

(** C2, as amended: for a mover at [y = 1005] with [x = centerX], the
    DEFENSE branch proposes [x = centerX - 260 = 45] and [y = 1005]; the
    concluding clamp, whose margin there is half the radius at [y = 1005],
    that is 90, then moves [x] to 90, and the solver returns [(90, 1005)]. *)
Theorem defense_center_target (movingPlayer teammate : Player) :
  x movingPlayer = centerX ->
  y movingPlayer = 1005 ->
  stateTarget movingPlayer = (centerX - 260, 1005) /\
  calculateOptimalPosition movingPlayer teammate = mkPoint 90 1005.
Proof.
  intros Hx Hy.
  pose proof (stateTarget_center movingPlayer Hx Hy) as Hs.
  split; [exact Hs |].
  unfold calculateOptimalPosition. rewrite Hs. apply safetyClamp_wide_center.
Qed.

Lemma defense_center_target_witness :
  let a1 := mkPlayer "A1" "A1" 305 1005 "bg-blue-500" 180 in
  let a2 := mkPlayer "A2" "A2" 460 1050 "bg-blue-500" 0 in
  stateTarget a1 = (centerX - 260, 1005) /\
  calculateOptimalPosition a1 a2 = mkPoint 90 1005.
Proof.
  intros a1 a2. apply defense_center_target.
  - unfold centerX, COURT_WIDTH. cbn. lra.
  - reflexivity.
Defined.

(** C2 as stated fails: at the centre of the half the returned [x] is 90,
    not [centerX - 260 = 45]. *)
Lemma defense_center_target_not_260 :
  let a1 := mkPlayer "A1" "A1" 305 1005 "bg-blue-500" 180 in
  let a2 := mkPlayer "A2" "A2" 460 1050 "bg-blue-500" 0 in
  x a1 = centerX /\ y a1 = 1005 /\
  pt_x (calculateOptimalPosition a1 a2) <> centerX - 260.
Proof.
  intros a1 a2.
  assert (Hx : x a1 = centerX) by (unfold centerX, COURT_WIDTH; cbn; lra).
  assert (Hy : y a1 = 1005) by reflexivity.
  repeat split; try assumption.
  unfold calculateOptimalPosition.
  rewrite (stateTarget_center a1 Hx Hy), safetyClamp_wide_center.
  unfold centerX, COURT_WIDTH. cbn [pt_x]. lra.
Qed.

(** ** The alpha of a heatmap cell *)

Lemma cellAlpha_low (r : R) : r <= 0.5 -> cellAlpha (Fin r) = None.
Proof.
  intros H. unfold cellAlpha, num_gtb, num_ltb. rewrite ltb_false by exact H.
  reflexivity.
Qed.

Lemma cellAlpha_high (r : R) :
  0.5 < r ->
  cellAlpha (Fin r) = Some (Rmin (Rmax (((r - 0.5) / 2.0) * 0.5) 0) 0.5).
Proof.
  intros H. unfold cellAlpha, num_gtb, num_ltb. rewrite ltb_true by exact H.
  reflexivity.
Qed.

Lemma cellAlpha_Inf : cellAlpha Inf = Some 0.5.
Proof. reflexivity. Qed.





(** ** The evaluator on a team of one *)

Lemma evaluate_single (p : Player) (cx cy : R) :
  evaluate [p] cx cy =
  (Fin (sqrt ((cx - x p) * (cx - x p) + (cy - y p) * (cy - y p))
        / or1 (defenseRadius p)),
   Fin (sqrt ((cx - x p) * (cx - x p) + (cy - y p) * (cy - y p)))).
Proof. reflexivity. Qed.

(** C4, as amended: for a team of one player with stored radius [R] at
    distance [D] from the query point, [minRatio = D / (R || 1)]: the
    divisor is 1 when [R] is 0 and [R] itself otherwise.  This is
    [D / max(R, 1)] whenever [R = 0] or [R >= 1]. *)
Theorem one_player_ratio (p : Player) (cx cy : R) :
  let D := sqrt ((cx - x p) * (cx - x p) + (cy - y p) * (cy - y p)) in
  fst (evaluate [p] cx cy) = Fin (D / or1 (defenseRadius p)) /\
  snd (evaluate [p] cx cy) = Fin D /\
  (defenseRadius p = 0 \/ 1 <= defenseRadius p ->
   fst (evaluate [p] cx cy) = Fin (D / Rmax (defenseRadius p) 1)).
Proof.
  intros D. rewrite evaluate_single. fold D. cbn [fst snd].
  split; [reflexivity |]. split; [reflexivity |].
  intros [H0 | H1].
  - rewrite H0, or1_zero, Rmax_right by lra. reflexivity.
  - rewrite or1_nonzero by lra. rewrite Rmax_left by lra. reflexivity.
Qed.

Lemma one_player_ratio_witness :
  let p := mkPlayer "A1" "A1" 0 670 "bg-blue-500" 120 in
  fst (evaluate [p] 30 710) = Fin (50 / Rmax 120 1).
Proof.
  intros p.
  assert (HD : sqrt ((30 - x p) * (30 - x p) + (710 - y p) * (710 - y p)) = 50).
  { cbn [x y p]. replace ((30 - 0) * (30 - 0) + (710 - 670) * (710 - 670))
      with (50 * 50) by lra.
    apply sqrt_square. lra. }
  rewrite <- HD.
  apply (proj2 (proj2 (one_player_ratio p 30 710))).
  right. cbn. lra.
Defined.

(** C4 as stated fails for a radius strictly between 0 and 1: at distance
    10 from a player of radius 1/2 the ratio is 20, while
    [D / max(R, 1)] is 10. *)
Lemma one_player_ratio_not_max :
  let p := mkPlayer "A1" "A1" 0 670 "bg-blue-500" (1 / 2) in
  let D := sqrt ((10 - x p) * (10 - x p) + (670 - y p) * (670 - y p)) in
  D = 10 /\
  fst (evaluate [p] 10 670) = Fin 20 /\
  fst (evaluate [p] 10 670) <> Fin (D / Rmax (defenseRadius p) 1).
Proof.
  intros p D.
  assert (HD : D = 10).
  { unfold D. cbn [x y p].
    replace ((10 - 0) * (10 - 0) + (670 - 670) * (670 - 670)) with (10 * 10) by lra.
    apply sqrt_square. lra. }
  assert (Hr : fst (evaluate [p] 10 670) = Fin 20).
  { rewrite evaluate_single. cbn [fst]. fold D. rewrite HD.
    cbn [defenseRadius p]. rewrite or1_nonzero by lra. f_equal. lra. }
  split; [exact HD |]. split; [exact Hr |].
  rewrite Hr, HD. cbn [defenseRadius p]. rewrite Rmax_right by lra.
  intros H. injection H as H. lra.
Qed.

(** ** The motion interpolator *)

Section Easing.

Variables (player : Player) (tx ty dur now : R).
Hypothesis dur_pos : 0 < dur.

Let m : Motion := animatePlayerMove player tx ty dur now.

(** The player and the eased factor of the frame [e] after the start. *)
Let frame (e : R) : Player := fst (animate m player (now + e)).
Let eased (e : R) : R := easeProgress m (now + e).

Lemma frame_x (e : R) : x (frame e) = x player + (tx - x player) * eased e.
Proof. reflexivity. Qed.

Lemma frame_y (e : R) : y (frame e) = y player + (ty - y player) * eased e.
Proof. reflexivity. Qed.

Lemma eased_unfold (e : R) :
  eased e = 1 - (1 - Rmin (e / dur) 1) ^ 2.
Proof.
  unfold eased, easeProgress, m, animatePlayerMove. cbn [startTime duration].
  replace (now + e - now) with e by lra. reflexivity.
Qed.

Lemma progress_nonneg (e : R) : 0 <= e -> 0 <= Rmin (e / dur) 1 <= 1.
Proof.
  intros He. split; [| apply Rmin_r].
  apply Rmin_glb; [| lra].
  apply Rmult_le_pos; [exact He |].
  left. apply Rinv_0_lt_compat. exact dur_pos.
Qed.

Lemma progress_mono (e1 e2 : R) :
  e1 <= e2 -> Rmin (e1 / dur) 1 <= Rmin (e2 / dur) 1.
Proof.
  intros H.
  assert (Hd : e1 / dur <= e2 / dur).
  { apply Rmult_le_compat_r; [| exact H].
    left. apply Rinv_0_lt_compat. exact dur_pos. }
  apply Rmin_glb.
  - apply Rle_trans with (e1 / dur); [apply Rmin_l | exact Hd].
  - apply Rmin_r.
Qed.

Lemma progress_done (e : R) : dur <= e -> Rmin (e / dur) 1 = 1.
Proof.
  intros H. apply Rmin_right.
  apply Rmult_le_reg_r with dur; [exact dur_pos |].
  unfold Rdiv. rewrite Rmult_assoc, Rinv_l by lra. lra.
Qed.

Lemma eased_start : eased 0 = 0.
Proof.
  rewrite eased_unfold. unfold Rdiv. rewrite Rmult_0_l.
  rewrite Rmin_left by lra. lra.
Qed.

Lemma eased_done (e : R) : dur <= e -> eased e = 1.
Proof. intros H. rewrite eased_unfold, progress_done by exact H. lra. Qed.

Lemma eased_range (e : R) : 0 <= e -> 0 <= eased e <= 1.
Proof.
  intros He. rewrite eased_unfold.
  pose proof (progress_nonneg e He) as Hp. nra.
Qed.

Lemma eased_mono (e1 e2 : R) : e1 <= e2 -> eased e1 <= eased e2.
Proof.
  intros H. rewrite !eased_unfold.
  pose proof (progress_mono e1 e2 H) as Hm.
  pose proof (Rmin_r (e1 / dur) 1) as H1.
  pose proof (Rmin_r (e2 / dur) 1) as H2.
  nra.
Qed.

Lemma frame_stops (e : R) :
  dur <= e -> snd (animate m player (now + e)) = false.
Proof.
  intros H. unfold animate, m, animatePlayerMove.
  cbn [snd startTime duration].
  replace (now + e - now) with e by lra.
  rewrite progress_done by exact H. apply ltb_false. lra.
Qed.

Lemma frame_continues (e : R) :
  0 <= e < dur -> snd (animate m player (now + e)) = true.
Proof.
  intros [H0 H]. unfold animate, m, animatePlayerMove.
  cbn [snd startTime duration].
  replace (now + e - now) with e by lra.
  apply ltb_true.
  assert (Hd : e / dur < 1).
  { apply Rmult_lt_reg_r with dur; [exact dur_pos |].
    unfold Rdiv. rewrite Rmult_assoc, Rinv_l by lra. lra. }
  rewrite Rmin_left by lra. exact Hd.
Qed.

(** A coordinate of a frame lies between those of the start and the
    target, and later frames are nearer the target. *)
Lemma lerp_between (a b k : R) :
  0 <= k <= 1 -> Rmin a b <= a + (b - a) * k <= Rmax a b.
Proof. intros H. minmax_cases; nra. Qed.

Lemma lerp_toward (a b k1 k2 : R) :
  k1 <= k2 ->
  (a <= b -> a + (b - a) * k1 <= a + (b - a) * k2) /\
  (b <= a -> a + (b - a) * k2 <= a + (b - a) * k1).
Proof. intros H. split; intros; nra. Qed.

End Easing.

(** C8, as amended: for a motion of positive duration started at [now],
    every frame puts the player at [start + (target - start) * eased], with
    [eased = 1 - (1 - p)^2] and [p = min(elapsed / duration, 1)]; the frame
    at elapsed time 0 leaves the player at the start; every frame at an
    elapsed time of at least the duration puts it exactly on the target and
    asks for no further frame; the eased factor is non-decreasing in the
    elapsed time, so that each coordinate moves monotonically toward the
    target; and at every elapsed time [e >= 0] the factor lies in [[0, 1]]
    and each coordinate lies between start and target. *)
Theorem ease_out_motion (player : Player) (tx ty dur now : R) :
  0 < dur ->
  let m := animatePlayerMove player tx ty dur now in
  let frame := fun e : R => fst (animate m player (now + e)) in
  let eased := fun e : R => 1 - (1 - Rmin (e / dur) 1) ^ 2 in
  (forall e : R,
     x (frame e) = x player + (tx - x player) * eased e /\
     y (frame e) = y player + (ty - y player) * eased e) /\
  (x (frame 0) = x player /\ y (frame 0) = y player) /\
  (forall e : R, dur <= e ->
     x (frame e) = tx /\ y (frame e) = ty /\
     snd (animate m player (now + e)) = false) /\
  (forall e : R, 0 <= e ->
     0 <= eased e <= 1 /\
     Rmin (x player) tx <= x (frame e) <= Rmax (x player) tx /\
     Rmin (y player) ty <= y (frame e) <= Rmax (y player) ty) /\
  (forall e1 e2 : R, e1 <= e2 ->
     eased e1 <= eased e2 /\
     (x player <= tx -> x (frame e1) <= x (frame e2)) /\
     (tx <= x player -> x (frame e2) <= x (frame e1)) /\
     (y player <= ty -> y (frame e1) <= y (frame e2)) /\
     (ty <= y player -> y (frame e2) <= y (frame e1))).
Proof.
  intros Hdur m frame eased. subst frame eased m. cbv beta.
  assert (Hpos : forall e : R,
            x (fst (animate (animatePlayerMove player tx ty dur now) player
                      (now + e))) =
              x player + (tx - x player) * (1 - (1 - Rmin (e / dur) 1) ^ 2) /\
            y (fst (animate (animatePlayerMove player tx ty dur now) player
                      (now + e))) =
              y player + (ty - y player) * (1 - (1 - Rmin (e / dur) 1) ^ 2)).
  { intros e. rewrite frame_x, frame_y, eased_unfold. split; reflexivity. }
  split; [exact Hpos |].
  split; [| split; [| split]].
  - rewrite frame_x, frame_y, eased_start. split; lra.
  - intros e He.
    rewrite frame_x, frame_y, eased_done by assumption.
    split; [lra |]. split; [lra |].
    apply frame_stops; assumption.
  - intros e He.
    pose proof (eased_range player tx ty dur now Hdur e He) as Hr.
    cbv beta in Hr. rewrite eased_unfold in Hr.
    split; [exact Hr |].
    destruct (Hpos e) as [-> ->].
    split; apply lerp_between; exact Hr.
  - intros e1 e2 H12.
    pose proof (eased_mono player tx ty dur now Hdur e1 e2 H12) as Hm.
    cbv beta in Hm. rewrite !eased_unfold in Hm.
    split; [exact Hm |].
    destruct (Hpos e1) as [-> ->]. destruct (Hpos e2) as [-> ->].
    destruct (lerp_toward (x player) tx _ _ Hm) as [Hx1 Hx2].
    destruct (lerp_toward (y player) ty _ _ Hm) as [Hy1 Hy2].
    repeat split; assumption.
Qed.

Lemma ease_out_motion_witness :
  let p := mkPlayer "A2" "A2" 100 1000 "bg-blue-500" 0 in
  let m := animatePlayerMove p 200 1100 300 0 in
  (x (fst (animate m p (0 + 0))) = 100 /\ y (fst (animate m p (0 + 0))) = 1000) /\
  (x (fst (animate m p (0 + 300))) = 200 /\ y (fst (animate m p (0 + 300))) = 1100) /\
  x (fst (animate m p (0 + 150))) = 100 + (200 - 100) * (1 - (1 - Rmin (150 / 300) 1) ^ 2) /\
  x (fst (animate m p (0 + 100))) <= x (fst (animate m p (0 + 200))).
Proof.
  intros p m.
  assert (Hdur : 0 < 300) by lra.
  destruct (ease_out_motion p 200 1100 300 0 Hdur) as (Hpos & H0 & Hend & _ & Hmono).
  split; [exact H0 |].
  split; [| split].
  - destruct (Hend 300) as (Hx & Hy & _); [lra |]. split; assumption.
  - exact (proj1 (Hpos 150)).
  - destruct (Hmono 100 200) as (_ & Hx & _); [lra |].
    apply Hx. cbn. lra.
Defined.

(** C8 as stated fails for a frame whose time precedes the start of the
    motion: the progress is clamped from above only, so at elapsed time
    - 30 of a motion of 300 ms from 100 to 200 the eased factor is
    [1 - 1.1^2 = - 0.21], outside [[0, 1]], and the player is put at 79,
    behind the start. *)
Lemma ease_out_motion_early_frame :
  let p := mkPlayer "A2" "A2" 100 1000 "bg-blue-500" 0 in
  let m := animatePlayerMove p 200 1100 300 0 in
  1 - (1 - Rmin (-30 / 300) 1) ^ 2 = - 0.21 /\
  x (fst (animate m p (0 + -30))) = 79 /\
  y (fst (animate m p (0 + -30))) = 979 /\
  ~ 0 <= 1 - (1 - Rmin (-30 / 300) 1) ^ 2 <= 1 /\
  ~ Rmin 100 200 <= x (fst (animate m p (0 + -30))) <= Rmax 100 200.
Proof.
  intros p m.
  assert (Hk : 1 - (1 - Rmin (-30 / 300) 1) ^ 2 = - 0.21).
  { rewrite Rmin_left by lra. lra. }
  assert (Hx : x (fst (animate m p (0 + -30))) = 79).
  { unfold m. rewrite frame_x, eased_unfold, Hk. cbn [x p]. lra. }
  assert (Hy : y (fst (animate m p (0 + -30))) = 979).
  { unfold m. rewrite frame_y, eased_unfold, Hk. cbn [y p]. lra. }
  split; [exact Hk |]. split; [exact Hx |]. split; [exact Hy |].
  split.
  - rewrite Hk. lra.
  - rewrite Hx. rewrite Rmin_left by lra. lra.
Qed.

(** ** The teammate stays in its half *)

Lemma edgeMargin_range (ty : R) :
  0 <= ty <= 1340 ->
  15 <= Rmax PLAYER_RADIUS (calculateDefenseRadius ty * 0.5) <= 120.
Proof.
  intros H. unfold PLAYER_RADIUS.
  pose proof (radius_ge_net ty) as H1.
  pose proof (radius_le_back ty H) as H2.
  rewrite Rmax_right by lra. lra.
Qed.

Lemma stateTarget_y_range (movingPlayer : Player) :
  0 <= snd (stateTarget movingPlayer) <= 1340.
Proof.
  unfold stateTarget, ATTACK_THRESHOLD, NET_THRESHOLD, gtb, ltb,
    CENTER_Y, NET_Y, BACK_LINE_Y.
  destruct (Rlt_dec 1200 (y movingPlayer)) as [Ha | Ha]; cbn [snd]; [lra |].
  destruct (Rlt_dec (y movingPlayer) 900) as [Hn | Hn]; cbn [snd].
  - minmax_cases.
  - lra.
Qed.

(** Whatever the mover, the point the solver returns lies in Team A's
    half. *)
Lemma solver_target_in_half (movingPlayer teammate : Player) :
  inHalfA (pt_x (calculateOptimalPosition movingPlayer teammate))
          (pt_y (calculateOptimalPosition movingPlayer teammate)).
Proof.
  unfold calculateOptimalPosition.
  pose proof (stateTarget_y_range movingPlayer) as Hy.
  destruct (stateTarget movingPlayer) as [tx ty]. cbn [snd] in Hy.
  unfold safetyClamp. cbn [pt_x pt_y].
  pose proof (edgeMargin_range ty Hy) as Hm.
  set (mg := Rmax PLAYER_RADIUS (calculateDefenseRadius ty * 0.5)) in *.
  unfold inHalfA, COURT_WIDTH, COURT_HEIGHT, NET_Y.
  pose proof (clamp_bounds mg (610 - mg) tx) as Hx.
  pose proof (clamp_bounds (670 + mg) (1340 - mg) ty) as Hy'.
  lra.
Qed.

Lemma convex_bounds (lo hi a b k : R) :
  lo <= a <= hi -> lo <= b <= hi -> 0 <= k <= 1 ->
  lo <= (1 - k) * a + k * b <= hi.
Proof.
  intros [Ha1 Ha2] [Hb1 Hb2] [Hk1 Hk2].
  assert (H1 : 0 <= (1 - k) * (a - lo)) by (apply Rmult_le_pos; lra).
  assert (H2 : 0 <= k * (b - lo)) by (apply Rmult_le_pos; lra).
  assert (H3 : 0 <= (1 - k) * (hi - a)) by (apply Rmult_le_pos; lra).
  assert (H4 : 0 <= k * (hi - b)) by (apply Rmult_le_pos; lra).
  split; lra.
Qed.

(** A frame [e >= 0] of any motion is a convex combination of the start
    and the target. *)
Lemma motion_frame_convex (player : Player) (tx ty dur now e : R) :
  0 < dur ->
  0 <= e ->
  let m := animatePlayerMove player tx ty dur now in
  let k := easeProgress m (now + e) in
  0 <= k <= 1 /\
  x (fst (animate m player (now + e))) = (1 - k) * x player + k * tx /\
  y (fst (animate m player (now + e))) = (1 - k) * y player + k * ty.
Proof.
  intros Hdur He m k.
  split; [exact (eased_range player tx ty dur now Hdur e He) |].
  unfold m. rewrite frame_x, frame_y. fold m.
  change (easeProgress m (now + e)) with k.
  split; lra.
Qed.

Lemma motion_frame_in_half (player : Player) (tx ty dur now e : R) :
  0 < dur ->
  0 <= e ->
  inHalfA (x player) (y player) ->
  inHalfA tx ty ->
  let m := animatePlayerMove player tx ty dur now in
  inHalfA (x (fst (animate m player (now + e))))
          (y (fst (animate m player (now + e)))).
Proof.
  intros Hdur He [Hsx Hsy] [Htx Hty] m.
  destruct (motion_frame_convex player tx ty dur now e Hdur He) as (Hk & Hx & Hy).
  fold m in Hx, Hy. rewrite Hx, Hy.
  split; apply convex_bounds; assumption.
Qed.

(** The motion the [end] listener starts keeps a teammate that is in Team
    A's half inside it. *)
Lemma dragEnd_frames_in_half
    (enabled : bool) (players : list Player) (targetId : string)
    (now e : R) (teammate : Player) (m : Motion) :
  dragEnd enabled players targetId now = Some (teammate, m) ->
  inHalfA (x teammate) (y teammate) ->
  0 <= e ->
  inHalfA (x (fst (animate m teammate (now + e))))
          (y (fst (animate m teammate (now + e)))).
Proof.
  unfold dragEnd. intros H Hs He.
  destruct (find _ players) as [player |]; [| discriminate].
  destruct (enabled && startsWithA player); [| discriminate].
  destruct (find _ players) as [tm |]; [| discriminate].
  injection H as <- <-.
  apply motion_frame_in_half; try assumption; try lra.
  apply solver_target_in_half.
Qed.

(** C10, as amended: every frame of the teammate's motion whose time is
    not before the start of the motion, [e >= 0], is a convex combination
    of the start and the target, with the eased factor
    [k = 1 - (1 - min(e / duration, 1))^2] in [[0, 1]]; so when the teammate
    starts in Team A's half and the target the solver returned is in it,
    every such frame is in it too, below the net line. *)
Theorem teammate_frames_in_half
    (movingPlayer teammate : Player) (dur now e : R) :
  0 < dur ->
  0 <= e ->
  inHalfA (x teammate) (y teammate) ->
  let target := calculateOptimalPosition movingPlayer teammate in
  inHalfA (pt_x target) (pt_y target) ->
  let m := animatePlayerMove teammate (pt_x target) (pt_y target) dur now in
  let frame := fst (animate m teammate (now + e)) in
  let k := 1 - (1 - Rmin (e / dur) 1) ^ 2 in
  0 <= k <= 1 /\
  x frame = (1 - k) * x teammate + k * pt_x target /\
  y frame = (1 - k) * y teammate + k * pt_y target /\
  inHalfA (x frame) (y frame) /\
  NET_Y < y frame.
Proof.
  intros Hdur He Hs target Ht m frame k.
  destruct (motion_frame_convex teammate (pt_x target) (pt_y target) dur now e
              Hdur He) as (Hk & Hx & Hy).
  pose proof (motion_frame_in_half teammate (pt_x target) (pt_y target) dur now e
                Hdur He Hs Ht) as Hin.
  assert (Ek : easeProgress
                 (animatePlayerMove teammate (pt_x target) (pt_y target) dur now)
                 (now + e) = k)
    by apply eased_unfold.
  rewrite Ek in Hk, Hx, Hy.
  split; [exact Hk |]. split; [exact Hx |]. split; [exact Hy |].
  split; [exact Hin |].
  destruct Hin as [_ Hy']. unfold NET_Y, frame, m. lra.
Qed.

Lemma teammate_frames_in_half_witness :
  let a1 := mkPlayer "A1" "A1" 500 1250 "bg-blue-500" 0 in
  let a2 := mkPlayer "A2" "A2" 460 1050 "bg-blue-500" 0 in
  let target := calculateOptimalPosition a1 a2 in
  let m := animatePlayerMove a2 (pt_x target) (pt_y target) 400 0 in
  inHalfA (x (fst (animate m a2 (0 + 100)))) (y (fst (animate m a2 (0 + 100)))).
Proof.
  intros a1 a2 target m.
  assert (Hdur : 0 < 400) by lra.
  assert (He : 0 <= 100) by lra.
  assert (Hs : inHalfA (x a2) (y a2)) by (unfold inHalfA; cbn; lra).
  pose proof (solver_target_in_half a1 a2) as Ht.
  exact (proj1 (proj2 (proj2 (proj2
           (teammate_frames_in_half a1 a2 400 0 100 Hdur He Hs Ht))))).
Defined.

Lemma solver_net_play_example :
  calculateOptimalPosition
    (mkPlayer "A1" "A1" 500 800 "bg-blue-500" 0)
    (mkPlayer "A2" "A2" 460 685 "bg-blue-500" 0) = mkPoint 266 1056.25.
Proof.
  unfold calculateOptimalPosition, stateTarget, ATTACK_THRESHOLD, NET_THRESHOLD.
  cbn [x y]. rewrite gtb_false by lra. rewrite ltb_true by lra.
  unfold CENTER_Y, NET_Y, BACK_LINE_Y, centerX, COURT_WIDTH.
  rewrite (Rmin_left _ 1300) by lra.
  unfold safetyClamp. rewrite radius_unfold, Rabs_pos_eq by lra.
  unfold PLAYER_RADIUS, COURT_WIDTH, COURT_HEIGHT, NET_Y.
  rewrite (Rmax_right 15) by lra.
  rewrite !clamp_id by lra. f_equal; lra.
Qed.

(** C10 as stated fails for a frame whose time precedes the start of the
    motion.  The teammate stands at [(460, 685)], in Team A's half; the
    mover at [(500, 800)] sends it to [(266, 1056.25)], in the half too; at
    elapsed time - 40 of the 400 ms the eased factor is
    [1 - 1.1^2 = - 0.21], and the frame puts the teammate at
    [y = 607.0375], on the other side of the net line. *)
Lemma teammate_early_frame_crosses_net :
  let a1 := mkPlayer "A1" "A1" 500 800 "bg-blue-500" 0 in
  let a2 := mkPlayer "A2" "A2" 460 685 "bg-blue-500" 0 in
  let target := calculateOptimalPosition a1 a2 in
  let m := animatePlayerMove a2 (pt_x target) (pt_y target) 400 0 in
  let frame := fst (animate m a2 (0 + -40)) in
  inHalfA (x a2) (y a2) /\
  inHalfA (pt_x target) (pt_y target) /\
  1 - (1 - Rmin (-40 / 400) 1) ^ 2 = - 0.21 /\
  y frame = 607.0375 /\
  y frame < NET_Y /\
  ~ inHalfA (x frame) (y frame).
Proof.
  intros a1 a2 target m frame.
  assert (Ht : target = mkPoint 266 1056.25) by apply solver_net_play_example.
  assert (Hk : 1 - (1 - Rmin (-40 / 400) 1) ^ 2 = - 0.21).
  { rewrite Rmin_left by lra. lra. }
  assert (Hy : y frame = 607.0375).
  { unfold frame, m. rewrite frame_y, eased_unfold, Hk, Ht. cbn [y a2 pt_y]. lra. }
  split; [unfold inHalfA; cbn [x y a2]; lra |].
  split; [rewrite Ht; unfold inHalfA; cbn [pt_x pt_y]; lra |].
  split; [exact Hk |]. split; [exact Hy |].
  split; [rewrite Hy; unfold NET_Y; lra |].
  unfold inHalfA. rewrite Hy. lra.
Qed.

(** ** The scan of the half court *)

Lemma rows_eq : rows = map (fun k => (670 + 10 * Z.of_nat k)%Z) (seq 0 68).
Proof. vm_compute. reflexivity. Qed.

Lemma columns_eq : columns = map (fun k => (10 * Z.of_nat k)%Z) (seq 0 62).
Proof. vm_compute. reflexivity. Qed.

Lemma gridCells_length : List.length gridCells = 4216%nat.
Proof. vm_compute. reflexivity. Qed.

Lemma gridCells_head : exists tl, gridCells = (0, 670)%Z :: tl.
Proof. vm_compute. eexists. reflexivity. Qed.

(** The two nested loops visit the samples of [gridCells] in order. *)
Lemma fold_left_flat_map {A B C : Type} (f : A -> C -> A) (g : B -> list C)
    (l : list B) (a : A) :
  fold_left (fun s b => fold_left f (g b) s) l a = fold_left f (flat_map g l) a.
Proof.
  revert a. induction l as [| b l IH]; intros a; cbn [flat_map fold_left].
  - reflexivity.
  - rewrite IH, fold_left_app. reflexivity.
Qed.

Lemma fold_left_map {A B C : Type} (f : A -> C -> A) (g : B -> C)
    (l : list B) (a : A) :
  fold_left f (map g l) a = fold_left (fun s b => f s (g b)) l a.
Proof.
  revert a. induction l as [| b l IH]; intros a; cbn [map fold_left].
  - reflexivity.
  - apply IH.
Qed.

Lemma fold_left_pointwise {A B : Type} (f g : A -> B -> A) (l : list B) (a : A) :
  (forall s b, f s b = g s b) -> fold_left f l a = fold_left g l a.
Proof.
  intros H. revert a. induction l as [| b l IH]; intros a; cbn [fold_left].
  - reflexivity.
  - rewrite H. apply IH.
Qed.

Lemma scanGrid_cells (team : list Player) :
  scanGrid team =
  fold_left (fun s c => sample team (IZR (snd c)) s (IZR (fst c))) gridCells
    (mkScan (Fin 0) (0, 0) []).
Proof.
  unfold scanGrid, gridCells.
  rewrite <- fold_left_flat_map.
  apply fold_left_pointwise. intros s cy.
  rewrite fold_left_map. reflexivity.
Qed.

(** What one sample does to [maxDist]. *)
Lemma sample_maxDist (team : list Player) (cy : R) (st : Scan) (cx : R) :
  maxDist (sample team cy st cx) =
  if num_gtb (snd (evaluate team cx cy)) (maxDist st)
  then snd (evaluate team cx cy) else maxDist st.
Proof.
  unfold sample. destruct (evaluate team cx cy) as [minRatio minDist].
  cbn [snd].
  destruct (num_gtb minDist (maxDist st));
    destruct (cellAlpha minRatio) as [alpha |];
    try destruct (gtb alpha 0.05); reflexivity.
Qed.

Lemma num_gtb_trans_pos (d m : num) :
  num_ltb m (Fin 0) = false ->
  num_gtb d m = true ->
  num_gtb d (Fin 0) = true /\ num_ltb d (Fin 0) = false.
Proof.
  unfold num_gtb.
  destruct d as [d |], m as [m |]; cbn [num_ltb]; intros Hm Hd;
    try discriminate; try (split; reflexivity).
  apply ltb_spec in Hd.
  assert (Hm' : 0 <= m).
  { destruct (Rle_lt_dec 0 m) as [H | H]; [exact H |].
    rewrite (ltb_true _ _ H) in Hm. discriminate. }
  split; [apply ltb_true | apply ltb_false]; lra.
Qed.

Lemma num_not_gtb_pos (d m : num) :
  num_gtb d m = false ->
  num_gtb d (Fin 0) = true ->
  num_gtb m (Fin 0) = true.
Proof.
  unfold num_gtb.
  destruct d as [d |], m as [m |]; cbn [num_ltb]; intros Hd Hp;
    try discriminate; try reflexivity.
  apply ltb_spec in Hp.
  assert (Hd' : d <= m).
  { destruct (Rle_lt_dec d m) as [H | H]; [exact H |].
    rewrite (ltb_true _ _ H) in Hd. discriminate. }
  apply ltb_true. lra.
Qed.

(** Along the scan [maxDist] never drops below 0, and it is above 0 exactly
    when it was so before or some sample met had [minDist > 0]. *)
Lemma scan_positive (team : list Player) (l : list (Z * Z)) (st : Scan) :
  num_ltb (maxDist st) (Fin 0) = false ->
  let st' :=
    fold_left (fun s c => sample team (IZR (snd c)) s (IZR (fst c))) l st in
  num_ltb (maxDist st') (Fin 0) = false /\
  (num_gtb (maxDist st') (Fin 0) = true <->
   num_gtb (maxDist st) (Fin 0) = true \/
   Exists (fun c => num_gtb (minDistAt team c) (Fin 0) = true) l).
Proof.
  revert st. induction l as [| c l IH]; intros st Hst; cbn [fold_left].
  - split; [exact Hst |]. split; [intros H; left; exact H |].
    intros [H | H]; [exact H | inversion H].
  - set (s1 := sample team (IZR (snd c)) st (IZR (fst c))).
    assert (H1 : maxDist s1 =
                 if num_gtb (minDistAt team c) (maxDist st)
                 then minDistAt team c else maxDist st)
      by apply sample_maxDist.
    destruct (num_gtb (minDistAt team c) (maxDist st)) eqn:Hg.
    + destruct (num_gtb_trans_pos _ _ Hst Hg) as [Hpos Hnn].
      rewrite <- H1 in Hpos, Hnn.
      destruct (IH s1 Hnn) as [IH1 IH2].
      split; [exact IH1 |]. rewrite IH2. split.
      * intros _. right. apply Exists_cons_hd. rewrite <- H1. exact Hpos.
      * intros _. left. exact Hpos.
    + rewrite <- H1 in Hst.
      destruct (IH s1 Hst) as [IH1 IH2].
      split; [exact IH1 |]. rewrite IH2, H1. split.
      * intros [H | H]; [left; exact H | right; apply Exists_cons_tl; exact H].
      * intros [H | H]; [left; exact H |].
        inversion H as [c' l' Hc | c' l' Hl]; subst.
        -- left. exact (num_not_gtb_pos _ _ Hg Hc).
        -- right. exact Hl.
Qed.

(** A marker is drawn exactly when some sample had [minDist > 0]. *)
Lemma marker_iff_positive_sample (players : list Player) :
  marker (updateHeatmap players) <> None <->
  Exists (fun c => num_gtb (minDistAt (filter startsWithA players) c) (Fin 0) = true)
    gridCells.
Proof.
  unfold updateHeatmap. cbn [marker]. rewrite scanGrid_cells.
  set (team := filter startsWithA players).
  set (init := mkScan (Fin 0) (0, 0) []).
  assert (H0 : num_ltb (maxDist init) (Fin 0) = false)
    by (cbn; apply ltb_false; lra).
  destruct (scan_positive team gridCells init H0) as [_ Hiff].
  assert (Hinit : num_gtb (maxDist init) (Fin 0) = false)
    by (cbn; apply ltb_false; lra).
  unfold furthestMarker.
  destruct (num_gtb (maxDist (fold_left _ gridCells init)) (Fin 0)) eqn:Hg.
  - split; [| intros _; discriminate].
    intros _. destruct (proj1 Hiff eq_refl) as [H | H]; [| exact H].
    rewrite Hinit in H. discriminate.
  - split; [intros H; contradiction H; reflexivity |].
    intros H. assert (Ht : false = true) by (apply Hiff; right; exact H).
    discriminate.
Qed.

(** The marker, when there is one, sits in the clamped region. *)
Lemma furthestMarker_bounds (st : Scan) (mk : Marker) :
  furthestMarker st = Some mk ->
  30 <= drawX mk <= 610 - 30 /\ 670 + 30 <= drawY mk <= 1340 - 30 /\
  markerR mk = 30.
Proof.
  unfold furthestMarker, COURT_WIDTH, COURT_HEIGHT.
  destruct (num_gtb (maxDist st) (Fin 0)); [| discriminate].
  intros H. injection H as <-. cbn [drawX drawY markerR].
  pose proof (clamp_bounds 30 (610 - 30) (fst (maxPoint st))) as Hx.
  pose proof (clamp_bounds (670 + 30) (1340 - 30) (snd (maxPoint st))) as Hy.
  repeat split; lra.
Qed.

(** ** The scan without a Team A player *)

Lemma sample_empty (cy : R) (st : Scan) (cx : R) :
  sample [] cy st cx =
  mkScan (if num_gtb Inf (maxDist st) then Inf else maxDist st)
         (if num_gtb Inf (maxDist st) then (cx, cy) else maxPoint st)
         (painted st ++ [fillCell cx cy 0.5]).
Proof.
  unfold sample. cbn [evaluate fold_left]. rewrite cellAlpha_Inf.
  rewrite gtb_true by lra.
  destruct (num_gtb Inf (maxDist st)); [reflexivity |].
  destruct st; reflexivity.
Qed.

Lemma scan_empty_saturated (l : list (Z * Z)) (st : Scan) :
  maxDist st = Inf ->
  fold_left (fun s c => sample [] (IZR (snd c)) s (IZR (fst c))) l st =
  mkScan Inf (maxPoint st)
    (painted st ++ map (fun c => fillCell (IZR (fst c)) (IZR (snd c)) 0.5) l).
Proof.
  revert st. induction l as [| c l IH]; intros st Hst; cbn [fold_left map].
  - rewrite app_nil_r. destruct st. cbn in Hst. subst. reflexivity.
  - rewrite IH.
    + rewrite sample_empty, Hst. cbn [num_gtb num_ltb maxPoint painted].
      rewrite <- app_assoc. reflexivity.
    + rewrite sample_empty, Hst. reflexivity.
Qed.

Lemma scanGrid_empty :
  scanGrid [] =
  mkScan Inf (0, 670)
    (map (fun c => fillCell (IZR (fst c)) (IZR (snd c)) 0.5) gridCells).
Proof.
  rewrite scanGrid_cells.
  destruct gridCells_head as [tl Htl]. rewrite Htl.
  cbn [fold_left map]. rewrite scan_empty_saturated.
  - rewrite sample_empty. reflexivity.
  - rewrite sample_empty. reflexivity.
Qed.

Lemma updateHeatmap_no_teamA (players : list Player) :
  filter startsWithA players = [] ->
  updateHeatmap players =
  mkCanvas (map (fun c => fillCell (IZR (fst c)) (IZR (snd c)) 0.5) gridCells)
           (Some (mkMarker 30 700 30)).
Proof.
  intros H. unfold updateHeatmap. rewrite H, scanGrid_empty.
  cbn [painted]. f_equal.
  unfold furthestMarker, COURT_WIDTH, COURT_HEIGHT.
  cbn [maxDist maxPoint num_gtb num_ltb fst snd].
  f_equal. f_equal.
  - rewrite Rmin_left by lra. apply Rmax_left. lra.
  - rewrite Rmin_left by lra. rewrite Rmax_left by lra. lra.
Qed.

(** C1, as amended: without a Team A player every sample has
    [minRatio = minDist = Infinity]; as [Infinity] passes both tests of the
    scan, every one of the 4216 samples is painted, at the saturated alpha
    0.5, and the marker is drawn, for the first sample [(0, 670)], at
    [(30, 700)].  In general the marker is drawn exactly when some sample
    had [minDist > 0]. *)
Theorem no_teamA_heatmap (players : list Player) :
  filter startsWithA players = [] ->
  (forall cx cy : R,
     evaluate (filter startsWithA players) cx cy = (Inf, Inf)) /\
  cells (updateHeatmap players) =
    map (fun c => fillCell (IZR (fst c)) (IZR (snd c)) 0.5) gridCells /\
  List.length (cells (updateHeatmap players)) = 4216%nat /\
  marker (updateHeatmap players) = Some (mkMarker 30 700 30) /\
  (forall ps : list Player,
     marker (updateHeatmap ps) <> None <->
     Exists (fun c => num_gtb (minDistAt (filter startsWithA ps) c) (Fin 0) = true)
       gridCells).
Proof.
  intros H.
  split; [intros cx cy; rewrite H; reflexivity |].
  rewrite (updateHeatmap_no_teamA players H). cbn [cells marker].
  split; [reflexivity |].
  split; [rewrite length_map; apply gridCells_length |].
  split; [reflexivity |].
  exact marker_iff_positive_sample.
Qed.

Lemma no_teamA_heatmap_witness :
  let b1 := mkPlayer "B1" "B1" 150 200 "bg-red-500" 0 in
  let b2 := mkPlayer "B2" "B2" 460 200 "bg-red-500" 0 in
  List.length (cells (updateHeatmap [b1; b2])) = 4216%nat /\
  marker (updateHeatmap [b1; b2]) = Some (mkMarker 30 700 30).
Proof.
  intros b1 b2.
  assert (H : filter startsWithA [b1; b2] = []) by reflexivity.
  destruct (no_teamA_heatmap [b1; b2] H) as (_ & _ & Hlen & Hmk & _).
  split; assumption.
Defined.

(** C1 as stated fails: with no Team A player the heatmap is not empty and
    the marker is drawn. *)
Lemma no_teamA_heatmap_not_blank :
  let b1 := mkPlayer "B1" "B1" 150 200 "bg-red-500" 0 in
  let b2 := mkPlayer "B2" "B2" 460 200 "bg-red-500" 0 in
  filter startsWithA [b1; b2] = [] /\
  cells (updateHeatmap [b1; b2]) <> [] /\
  marker (updateHeatmap [b1; b2]) <> None.
Proof.
  intros b1 b2.
  assert (H : filter startsWithA [b1; b2] = []) by reflexivity.
  split; [exact H |].
  rewrite (updateHeatmap_no_teamA [b1; b2] H). cbn [cells marker].
  split; [| discriminate].
  destruct gridCells_head as [tl Htl]. rewrite Htl. discriminate.
Qed.

(** ** The furthest-point marker *)

Lemma visit_positive (cx cy : R) (acc : num * num) (p : Player) :
  num_gtb (snd acc) (Fin 0) = true ->
  0 < (cx - x p) * (cx - x p) + (cy - y p) * (cy - y p) ->
  num_gtb (snd (visit cx cy acc p)) (Fin 0) = true.
Proof.
  intros Hacc Hp. unfold visit. destruct acc as [minRatio minDist].
  cbn [snd] in *.
  destruct (num_ltb (Fin (sqrt _)) minDist); [| exact Hacc].
  unfold num_gtb, num_ltb. apply ltb_true. apply sqrt_lt_R0. exact Hp.
Qed.

(** A sample on which no team player stands has [minDist > 0]. *)
Lemma minDist_positive (team : list Player) (cx cy : R) :
  Forall (fun p => 0 < (cx - x p) * (cx - x p) + (cy - y p) * (cy - y p)) team ->
  num_gtb (snd (evaluate team cx cy)) (Fin 0) = true.
Proof.
  unfold evaluate.
  assert (H0 : num_gtb (snd (Inf, Inf)) (Fin 0) = true) by reflexivity.
  revert H0. generalize (Inf, Inf).
  induction team as [| p team IH]; intros acc Hacc Hall; cbn [fold_left].
  - exact Hacc.
  - inversion Hall as [| p' team' Hp Hrest]; subst.
    apply IH; [| exact Hrest].
    apply visit_positive; assumption.
Qed.

Lemma teamA_players0 :
  filter startsWithA (refreshRadii players0) =
  [ mkPlayer "A1" "A1" 150 1050 "bg-blue-500" (calculateDefenseRadius 1050);
    mkPlayer "A2" "A2" 460 1050 "bg-blue-500" (calculateDefenseRadius 1050) ].
Proof. reflexivity. Qed.

(** C7: whenever a marker is drawn, whatever the players, its centre has
    [30 <= x <= 610 - 30] and [670 + 30 <= y <= 1340 - 30]. *)
Theorem marker_in_safe_region (players : list Player) (mk : Marker) :
  marker (updateHeatmap players) = Some mk ->
  30 <= drawX mk <= 610 - 30 /\ 670 + 30 <= drawY mk <= 1340 - 30.
Proof.
  unfold updateHeatmap. cbn [marker]. intros H.
  destruct (furthestMarker_bounds _ _ H) as (Hx & Hy & _).
  split; assumption.
Qed.

Lemma marker_in_safe_region_witness :
  exists mk : Marker,
    marker (updateHeatmap (refreshRadii players0)) = Some mk /\
    30 <= drawX mk <= 610 - 30 /\ 670 + 30 <= drawY mk <= 1340 - 30.
Proof.
  destruct (marker (updateHeatmap (refreshRadii players0))) as [mk |] eqn:Hm.
  - exists mk. split; [reflexivity |].
    exact (marker_in_safe_region (refreshRadii players0) mk Hm).
  - exfalso.
    apply (proj2 (marker_iff_positive_sample (refreshRadii players0)));
      [| exact Hm].
    destruct gridCells_head as [tl Htl]. rewrite Htl.
    apply Exists_cons_hd. unfold minDistAt. cbn [fst snd].
    apply minDist_positive. rewrite teamA_players0.
    repeat constructor; cbn [x y]; lra.
Defined.

(** * Further properties of the script *)

(** ** The order on numbers *)

Lemma ltb_false_iff (a b : R) : ltb a b = false <-> b <= a.
Proof.
  unfold ltb. destruct (Rlt_dec a b); split; intros;
    try lra; try discriminate; reflexivity.
Qed.

(** Turns every comparison of numbers in the context and the goal into a
    comparison of reals, and calls linear arithmetic. *)
Ltac num_order :=
  unfold num_lt, num_le, num_gtb in *;
  repeat match goal with
         | a : num |- _ => destruct a
         end;
  cbn [num_ltb] in *;
  try discriminate; try reflexivity;
  repeat match goal with
         | H : ltb _ _ = true |- _ => apply ltb_spec in H
         | H : ltb _ _ = false |- _ => apply ltb_false_iff in H
         | H : Fin _ = Fin _ |- _ => injection H as H
         end;
  try match goal with
      | |- ltb _ _ = true => apply ltb_true
      | |- ltb _ _ = false => apply ltb_false
      | |- Fin _ = Fin _ => f_equal
      end;
  try lra.

Lemma num_le_refl (a : num) : num_le a a.
Proof. num_order. Qed.

Lemma num_le_trans (a b c : num) : num_le a b -> num_le b c -> num_le a c.
Proof. intros H1 H2. num_order. Qed.

Lemma num_lt_le_trans (a b c : num) : num_lt a b -> num_le b c -> num_lt a c.
Proof. intros H1 H2. num_order. Qed.

Lemma num_le_lt_trans (a b c : num) : num_le a b -> num_lt b c -> num_lt a c.
Proof. intros H1 H2. num_order. Qed.

Lemma num_lt_le (a b : num) : num_lt a b -> num_le a b.
Proof. intros H. num_order. Qed.

Lemma num_le_Inf (a : num) : num_le a Inf.
Proof. num_order. Qed.

(** ** The evaluator returns the two minima *)

Lemma visit_unfold (cx cy : R) (mr md : num) (p : Player) :
  visit cx cy (mr, md) p =
  (if num_ltb (Fin (ratioTo cx cy p)) mr then Fin (ratioTo cx cy p) else mr,
   if num_ltb (Fin (distTo cx cy p)) md then Fin (distTo cx cy p) else md).
Proof. reflexivity. Qed.

(** The state of the inner loop after a team, from any starting pair. *)
Lemma visit_fold_min (cx cy : R) (team : list Player) (mr0 md0 : num) :
  let res := fold_left (visit cx cy) team (mr0, md0) in
  (num_le (fst res) mr0 /\
   Forall (fun p => num_le (fst res) (Fin (ratioTo cx cy p))) team /\
   (fst res = mr0 \/ exists p, In p team /\ fst res = Fin (ratioTo cx cy p))) /\
  (num_le (snd res) md0 /\
   Forall (fun p => num_le (snd res) (Fin (distTo cx cy p))) team /\
   (snd res = md0 \/ exists p, In p team /\ snd res = Fin (distTo cx cy p))).
Proof.
  revert mr0 md0.
  induction team as [| p team IH]; intros mr0 md0; cbn [fold_left].
  - cbn [fst snd]. repeat split; auto using num_le_refl.
  - rewrite visit_unfold.
    set (mr1 := if num_ltb (Fin (ratioTo cx cy p)) mr0
                then Fin (ratioTo cx cy p) else mr0).
    set (md1 := if num_ltb (Fin (distTo cx cy p)) md0
                then Fin (distTo cx cy p) else md0).
    destruct (IH mr1 md1) as [(Hr1 & Hr2 & Hr3) (Hd1 & Hd2 & Hd3)].
    assert (Hmr : num_le mr1 mr0 /\ num_le mr1 (Fin (ratioTo cx cy p)) /\
                  (mr1 = mr0 \/ mr1 = Fin (ratioTo cx cy p))).
    { unfold mr1.
      destruct (num_ltb (Fin (ratioTo cx cy p)) mr0) eqn:E.
      - repeat split; [apply num_lt_le; exact E | apply num_le_refl | now right].
      - repeat split; [apply num_le_refl | exact E | now left]. }
    assert (Hmd : num_le md1 md0 /\ num_le md1 (Fin (distTo cx cy p)) /\
                  (md1 = md0 \/ md1 = Fin (distTo cx cy p))).
    { unfold md1.
      destruct (num_ltb (Fin (distTo cx cy p)) md0) eqn:E.
      - repeat split; [apply num_lt_le; exact E | apply num_le_refl | now right].
      - repeat split; [apply num_le_refl | exact E | now left]. }
    destruct Hmr as (Hmr1 & Hmr2 & Hmr3). destruct Hmd as (Hmd1 & Hmd2 & Hmd3).
    split; (split; [| split]).
    + eapply num_le_trans; eassumption.
    + constructor; [eapply num_le_trans; eassumption | exact Hr2].
    + destruct Hr3 as [Hr3 | (q & Hq & Hr3)].
      * destruct Hmr3 as [Hmr3 | Hmr3].
        -- left. congruence.
        -- right. exists p. split; [now left | congruence].
      * right. exists q. split; [now right | exact Hr3].
    + eapply num_le_trans; eassumption.
    + constructor; [eapply num_le_trans; eassumption | exact Hd2].
    + destruct Hd3 as [Hd3 | (q & Hq & Hd3)].
      * destruct Hmd3 as [Hmd3 | Hmd3].
        -- left. congruence.
        -- right. exists p. split; [now left | congruence].
      * right. exists q. split; [now right | exact Hd3].
Qed.

Lemma evaluate_lower_bound (team : list Player) (cx cy : R) :
  Forall (fun p => num_le (fst (evaluate team cx cy)) (Fin (ratioTo cx cy p)) /\
                   num_le (snd (evaluate team cx cy)) (Fin (distTo cx cy p)))
    team.
Proof.
  destruct (visit_fold_min cx cy team Inf Inf) as [(_ & Hr & _) (_ & Hd & _)].
  unfold evaluate. rewrite Forall_forall in *.
  intros p Hp. split; [apply Hr | apply Hd]; exact Hp.
Qed.

Lemma evaluate_attained (team : list Player) (cx cy : R) :
  team <> [] ->
  (exists p, In p team /\ fst (evaluate team cx cy) = Fin (ratioTo cx cy p)) /\
  (exists p, In p team /\ snd (evaluate team cx cy) = Fin (distTo cx cy p)).
Proof.
  intros Hne.
  destruct team as [| p0 team]; [contradiction |].
  unfold evaluate. cbn [fold_left]. rewrite visit_unfold. cbn [num_ltb].
  destruct (visit_fold_min cx cy team (Fin (ratioTo cx cy p0))
              (Fin (distTo cx cy p0))) as [(_ & _ & Hr) (_ & _ & Hd)].
  split.
  - destruct Hr as [Hr | (q & Hq & Hr)].
    + exists p0. split; [now left | exact Hr].
    + exists q. split; [now right | exact Hr].
  - destruct Hd as [Hd | (q & Hq & Hd)].
    + exists p0. split; [now left | exact Hd].
    + exists q. split; [now right | exact Hd].
Qed.

(** X1: the evaluator returns the minimum ratio and the minimum distance
    over the team: both are lower bounds of every player's value, both are
    the value of some player when the team is not empty, and both are
    [Infinity] when it is. *)
Theorem evaluate_is_minimum (team : list Player) (cx cy : R) :
  Forall (fun p => num_le (fst (evaluate team cx cy)) (Fin (ratioTo cx cy p)) /\
                   num_le (snd (evaluate team cx cy)) (Fin (distTo cx cy p)))
    team /\
  (team <> [] ->
   (exists p, In p team /\ fst (evaluate team cx cy) = Fin (ratioTo cx cy p)) /\
   (exists p, In p team /\ snd (evaluate team cx cy) = Fin (distTo cx cy p))) /\
  (team = [] -> evaluate team cx cy = (Inf, Inf)).
Proof.
  split; [apply evaluate_lower_bound |].
  split; [apply evaluate_attained |].
  intros ->. reflexivity.
Qed.

Lemma evaluate_is_minimum_witness :
  let a1 := mkPlayer "A1" "A1" 150 1050 "bg-blue-500" 180 in
  exists p, In p [a1] /\ snd (evaluate [a1] 0 670) = Fin (distTo 0 670 p).
Proof.
  intros a1.
  assert (Hne : [a1] <> []) by discriminate.
  exact (proj2 (proj1 (proj2 (evaluate_is_minimum [a1] 0 670)) Hne)).
Defined.

(** [minRatio] exceeds a threshold exactly when every player's ratio does. *)
Lemma minRatio_above_iff (team : list Player) (cx cy t : R) :
  num_gtb (fst (evaluate team cx cy)) (Fin t) = true <->
  Forall (fun p => t < ratioTo cx cy p) team.
Proof.
  pose proof (evaluate_lower_bound team cx cy) as Hlb.
  split.
  - intros Hg. rewrite Forall_forall in *. intros p Hp.
    destruct (Hlb p Hp) as [Hr _].
    destruct (fst (evaluate team cx cy)) as [r |]; num_order.
  - intros Hall. destruct team as [| p0 team]; [reflexivity |].
    destruct (evaluate_attained (p0 :: team) cx cy) as [(q & Hq & Hr) _];
      [discriminate |].
    rewrite Hr. rewrite Forall_forall in Hall.
    apply ltb_true. apply Hall. exact Hq.
Qed.

(** ** What the scan paints *)

(** A sample is painted exactly under [minRatio > 0.7]: this is where the
    alpha passes the cutoff 0.05. *)
Lemma paintAt_criterion (team : list Player) (cx cy : R) :
  paintAt team cx cy =
  if num_gtb (fst (evaluate team cx cy)) (Fin 0.7)
  then [fillCell cx cy (clampAlpha (alphaRaw (fst (evaluate team cx cy))))]
  else [].
Proof.
  unfold paintAt.
  destruct (fst (evaluate team cx cy)) as [r |].
  - unfold num_gtb, num_ltb.
    destruct (Rlt_dec 0.7 r) as [H | H].
    + rewrite (ltb_true _ _ H). rewrite cellAlpha_high by lra.
      cbn [alphaRaw clampAlpha].
      rewrite gtb_true; [reflexivity |]. minmax_cases.
    + rewrite ltb_false by lra.
      destruct (Rlt_dec 0.5 r) as [H5 | H5].
      * rewrite cellAlpha_high by lra.
        rewrite gtb_false; [reflexivity |]. minmax_cases.
      * rewrite cellAlpha_low by lra. reflexivity.
  - rewrite cellAlpha_Inf. rewrite gtb_true by lra. reflexivity.
Qed.

Lemma clampAlpha_painted_range (mr : num) :
  num_gtb mr (Fin 0.7) = true ->
  0.05 < clampAlpha (alphaRaw mr) <= 0.5.
Proof.
  intros H. destruct mr as [r |]; cbn [alphaRaw clampAlpha]; [| lra].
  unfold num_gtb, num_ltb in H. apply ltb_spec in H. minmax_cases.
Qed.

Lemma sample_painted (team : list Player) (cy : R) (st : Scan) (cx : R) :
  painted (sample team cy st cx) = painted st ++ paintAt team cx cy.
Proof.
  unfold sample, paintAt. destruct (evaluate team cx cy) as [minRatio minDist].
  cbn [fst].
  destruct (num_gtb minDist (maxDist st));
    destruct (cellAlpha minRatio) as [alpha |];
    try destruct (gtb alpha 0.05); cbn [painted];
    rewrite ?app_nil_r; reflexivity.
Qed.

Lemma sample_maxPoint (team : list Player) (cy : R) (st : Scan) (cx : R) :
  maxPoint (sample team cy st cx) =
  if num_gtb (snd (evaluate team cx cy)) (maxDist st)
  then (cx, cy) else maxPoint st.
Proof.
  unfold sample. destruct (evaluate team cx cy) as [minRatio minDist].
  cbn [snd].
  destruct (num_gtb minDist (maxDist st));
    destruct (cellAlpha minRatio) as [alpha |];
    try destruct (gtb alpha 0.05); reflexivity.
Qed.

Lemma scan_painted (team : list Player) (l : list (Z * Z)) (st : Scan) :
  painted (fold_left (fun s c => sample team (IZR (snd c)) s (IZR (fst c))) l st) =
  painted st ++
  flat_map (fun c => paintAt team (IZR (fst c)) (IZR (snd c))) l.
Proof.
  revert st. induction l as [| c l IH]; intros st; cbn [fold_left flat_map].
  - rewrite app_nil_r. reflexivity.
  - rewrite IH, sample_painted, app_assoc. reflexivity.
Qed.

(** The heatmap is the concatenation, in scan order, of what each sample
    paints by itself. *)
Lemma updateHeatmap_cells (players : list Player) :
  cells (updateHeatmap players) =
  flat_map (fun c => paintAt (filter startsWithA players)
                       (IZR (fst c)) (IZR (snd c))) gridCells.
Proof.
  unfold updateHeatmap. cbn [cells].
  rewrite scanGrid_cells, scan_painted. reflexivity.
Qed.

Lemma fillCell_inj (cx cy a cx' cy' a' : R) :
  fillCell cx cy a = fillCell cx' cy' a' -> cx = cx' /\ cy = cy' /\ a = a'.
Proof.
  unfold fillCell. intros H. injection H as Hx Hy Ha.
  repeat split; lra.
Qed.

(** ** The samples of the scan *)

Lemma forUpTo_spec (fuel : nat) (i stop step v : Z) :
  (0 < step)%Z ->
  In v (forUpTo fuel i stop step) <->
  exists k : nat, (k < fuel)%nat /\ v = (i + Z.of_nat k * step)%Z /\ (v <= stop)%Z.
Proof.
  intros Hstep. revert i.
  induction fuel as [| fuel IH]; intros i; cbn [forUpTo].
  - split; [intros [] | intros (k & Hk & _); lia].
  - destruct (Z.leb_spec i stop) as [Hle | Hgt].
    + cbn [In]. rewrite IH. split.
      * intros [<- | (k & Hk & -> & Hv)].
        -- exists 0%nat. split; [lia |]. split; [lia | exact Hle].
        -- exists (S k). split; [lia |]. split; [lia | exact Hv].
      * intros (k & Hk & -> & Hv). destruct k as [| k].
        -- left. lia.
        -- right. exists k. split; [lia |]. split; [lia | lia].
    + split; [intros [] |].
      intros (k & Hk & -> & Hv). nia.
Qed.

(** The loop model runs to the end of the loop: with a positive step it
    yields exactly [start], [start + step], ... up to [stop] included. *)
Lemma forRange_spec (start stop step v : Z) :
  (0 < step)%Z ->
  In v (forRange start stop step) <->
  exists k : nat, v = (start + Z.of_nat k * step)%Z /\ (v <= stop)%Z.
Proof.
  intros Hstep. unfold forRange. rewrite forUpTo_spec by exact Hstep.
  split.
  - intros (k & _ & Hv & Hs). exists k. split; assumption.
  - intros (k & -> & Hs). exists k. split; [| split; [reflexivity | exact Hs]].
    nia.
Qed.

Lemma in_gridCells (cx cy : Z) :
  In (cx, cy) gridCells <-> In cx columns /\ In cy rows.
Proof.
  unfold gridCells. rewrite in_flat_map. split.
  - intros (r & Hr & Hin). apply in_map_iff in Hin.
    destruct Hin as (c & Heq & Hc). injection Heq as <- <-. split; assumption.
  - intros [Hc Hr]. exists cy. split; [exact Hr |].
    apply in_map_iff. exists cx. split; [reflexivity | exact Hc].
Qed.

Lemma NoDup_map_inj {A B : Type} (f : A -> B) (l : list A) :
  (forall a b, f a = f b -> a = b) -> NoDup l -> NoDup (map f l).
Proof.
  intros Hinj Hl. induction Hl as [| a l Hnin Hl IH]; cbn [map].
  - constructor.
  - constructor; [| exact IH].
    intros Hin. apply in_map_iff in Hin. destruct Hin as (b & Hb & Hin).
    apply Hinj in Hb. subst b. contradiction.
Qed.

Lemma NoDup_forRange (start stop step : Z) :
  (0 < step)%Z -> NoDup (forRange start stop step).
Proof.
  intros Hstep. unfold forRange.
  generalize (Z.to_nat (stop - start + 1)) as fuel. intros fuel. revert start.
  induction fuel as [| fuel IH]; intros i; cbn [forUpTo].
  - constructor.
  - destruct (i <=? stop)%Z; [| constructor].
    constructor; [| apply IH].
    rewrite forUpTo_spec by exact Hstep.
    intros (k & _ & Hv & _). nia.
Qed.

Lemma NoDup_gridCells : NoDup gridCells.
Proof.
  unfold gridCells.
  assert (Hc : NoDup columns) by (apply NoDup_forRange; reflexivity).
  assert (Hr : NoDup rows) by (apply NoDup_forRange; reflexivity).
  induction Hr as [| r rs Hnin Hr IH]; cbn [flat_map].
  - constructor.
  - apply NoDup_app.
    + apply NoDup_map_inj; [| exact Hc]. intros a b H. congruence.
    + exact IH.
    + intros [cx cy] Hin Hin'.
      apply in_map_iff in Hin. destruct Hin as (c & Heq & _).
      injection Heq as _ <-.
      apply in_flat_map in Hin'. destruct Hin' as (r' & Hr' & Hin').
      apply in_map_iff in Hin'. destruct Hin' as (c' & Heq' & _).
      injection Heq' as _ <-. contradiction.
Qed.

(** X2: the two loops visit, once each, exactly the samples
    [(10 i, 670 + 10 j)] with [0 <= i <= 61] and [0 <= j <= 67]: 4216
    samples, the net line, the back line and both side lines included,
    starting with [(0, 670)]. *)
Theorem scan_lattice :
  (forall cx cy : Z,
     In (cx, cy) gridCells <->
     (exists i : Z, (0 <= i <= 61)%Z /\ cx = (10 * i)%Z) /\
     (exists j : Z, (0 <= j <= 67)%Z /\ cy = (670 + 10 * j)%Z)) /\
  NoDup gridCells /\
  List.length gridCells = 4216%nat /\
  hd_error gridCells = Some (0, 670)%Z.
Proof.
  split; [| split; [exact NoDup_gridCells | split;
                    [exact gridCells_length | vm_compute; reflexivity]]].
  intros cx cy. rewrite in_gridCells. unfold columns, rows, gridSize.
  cbv zeta. rewrite !forRange_spec by lia. split.
  - intros [(k & -> & Hk) (k' & -> & Hk')]. split.
    + exists (Z.of_nat k). split; lia.
    + exists (Z.of_nat k'). split; lia.
  - intros [(i & Hi & ->) (j & Hj & ->)]. split.
    + exists (Z.to_nat i). split; lia.
    + exists (Z.to_nat j). split; lia.
Qed.

Lemma gridCells_bounds (c : Z * Z) :
  In c gridCells -> (0 <= fst c <= 610)%Z /\ (670 <= snd c <= 1340)%Z.
Proof.
  destruct c as [cx cy]. rewrite in_gridCells. unfold columns, rows, gridSize.
  cbv zeta. rewrite !forRange_spec by lia.
  intros [(k & -> & Hk) (k' & -> & Hk')]. cbn [fst snd]. lia.
Qed.

(** ** The painted cells *)

Lemma in_cells_iff (players : list Player) (cell : Cell) :
  In cell (cells (updateHeatmap players)) <->
  exists c, In c gridCells /\
    num_gtb (fst (evaluate (filter startsWithA players)
                    (IZR (fst c)) (IZR (snd c)))) (Fin 0.7) = true /\
    cell = fillCell (IZR (fst c)) (IZR (snd c))
             (clampAlpha (alphaRaw (fst (evaluate (filter startsWithA players)
                                           (IZR (fst c)) (IZR (snd c)))))).
Proof.
  rewrite updateHeatmap_cells, in_flat_map. split.
  - intros (c & Hc & Hin). exists c. split; [exact Hc |].
    rewrite paintAt_criterion in Hin.
    destruct (num_gtb _ (Fin 0.7)); [| contradiction].
    destruct Hin as [<- | []]. split; reflexivity.
  - intros (c & Hc & Hg & ->). exists c. split; [exact Hc |].
    rewrite paintAt_criterion, Hg. now left.
Qed.

Lemma flat_map_length_le {A B : Type} (f : A -> list B) (l : list A) :
  (forall a, (List.length (f a) <= 1)%nat) ->
  (List.length (flat_map f l) <= List.length l)%nat.
Proof.
  intros H. induction l as [| a l IH]; cbn [flat_map List.length].
  - lia.
  - rewrite length_app. specialize (H a). lia.
Qed.

(** X3: a sample of the scan is painted exactly when every Team A player
    has ratio [dist / (defenseRadius || 1)] above 0.7 there, and then with
    the alpha computed from the minimum ratio. *)
Theorem heatmap_paint_rule (players : list Player) (c : Z * Z) :
  In c gridCells ->
  let team := filter startsWithA players in
  let cx := IZR (fst c) in
  let cy := IZR (snd c) in
  ((exists a, In (fillCell cx cy a) (cells (updateHeatmap players))) <->
   Forall (fun p => 0.7 < ratioTo cx cy p) team) /\
  (forall a, In (fillCell cx cy a) (cells (updateHeatmap players)) ->
             a = clampAlpha (alphaRaw (fst (evaluate team cx cy)))).
Proof.
  intros Hc team cx cy.
  assert (Hin : forall a, In (fillCell cx cy a) (cells (updateHeatmap players)) ->
                  num_gtb (fst (evaluate team cx cy)) (Fin 0.7) = true /\
                  a = clampAlpha (alphaRaw (fst (evaluate team cx cy)))).
  { intros a Hin. destruct (proj1 (in_cells_iff _ _) Hin) as (c' & _ & Hg & Heq).
    apply fillCell_inj in Heq. destruct Heq as (Hx & Hy & Ha).
    fold team in Hg, Ha. rewrite <- Hx, <- Hy in Hg, Ha. split; assumption. }
  split; [split |].
  - intros (a & Ha). apply minRatio_above_iff. apply (Hin a Ha).
  - intros Hall. apply minRatio_above_iff in Hall.
    exists (clampAlpha (alphaRaw (fst (evaluate team cx cy)))).
    apply in_cells_iff. exists c. split; [exact Hc |]. split; [exact Hall | reflexivity].
  - intros a Ha. apply (Hin a Ha).
Qed.

Lemma heatmap_paint_rule_witness :
  let a1 := mkPlayer "A1" "A1" 150 1050 "bg-blue-500" 180 in
  exists a, In (fillCell (IZR (fst (0, 670)%Z)) (IZR (snd (0, 670)%Z)) a)
              (cells (updateHeatmap [a1])).
Proof.
  intros a1.
  assert (Hc : In (0, 670)%Z gridCells).
  { destruct gridCells_head as [tl ->]. now left. }
  apply (proj2 (proj1 (heatmap_paint_rule [a1] (0, 670)%Z Hc))).
  change (filter startsWithA [a1]) with [a1].
  constructor; [| constructor].
  unfold ratioTo, distTo. cbn [fst snd x y defenseRadius a1].
  rewrite or1_nonzero by lra.
  assert (Hd : 400 <= sqrt ((0 - 150) * (0 - 150) + (670 - 1050) * (670 - 1050))).
  { rewrite <- (sqrt_square 400) at 1 by lra. apply sqrt_le_1_alt. lra. }
  apply Rmult_lt_reg_r with 180; [lra |].
  unfold Rdiv. rewrite Rmult_assoc, Rinv_l by lra. lra.
Defined.

(** No two rectangles painted for distinct samples share a corner, and a
    sample paints at most one. *)
Lemma NoDup_painted_corners (team : list Player) (l : list (Z * Z)) :
  NoDup l ->
  NoDup (map (fun cell => (cell_x cell, cell_y cell))
           (flat_map (fun c => paintAt team (IZR (fst c)) (IZR (snd c))) l)).
Proof.
  intros Hl. induction Hl as [| c l Hnin Hl IH]; cbn [flat_map map].
  - constructor.
  - rewrite paintAt_criterion.
    destruct (num_gtb _ (Fin 0.7)); cbn [app map]; [| exact IH].
    constructor; [| exact IH].
    intros Hin. apply in_map_iff in Hin. destruct Hin as (cell & Hpos & Hin).
    apply in_flat_map in Hin. destruct Hin as (c' & Hc' & Hin).
    rewrite paintAt_criterion in Hin.
    destruct (num_gtb _ (Fin 0.7)); [| contradiction].
    destruct Hin as [<- | []].
    unfold fillCell in Hpos. cbn [cell_x cell_y] in Hpos.
    injection Hpos as Hx Hy.
    assert (Ex : fst c' = fst c) by (apply eq_IZR; lra).
    assert (Ey : snd c' = snd c) by (apply eq_IZR; lra).
    apply Hnin. destruct c as [cx cy], c' as [cx' cy']. cbn [fst snd] in *.
    subst. exact Hc'.
Qed.

(** X4: every painted cell is a 10 by 10 square centred on a sample of the
    scan, hence with its corner in [[-5, 605]] by [[665, 1335]], and its
    alpha lies in [(0.05, 0.5]]; no two painted cells have the same corner,
    that is, at most one cell is painted per sample, and so at most 4216 in
    all. *)
Theorem painted_cells_invariant (players : list Player) :
  Forall (fun cell =>
            0.05 < cell_alpha cell <= 0.5 /\
            cell_w cell = 10 /\ cell_h cell = 10 /\
            (exists c, In c gridCells /\
                       cell_x cell = IZR (fst c) - 5 /\
                       cell_y cell = IZR (snd c) - 5) /\
            -5 <= cell_x cell <= 605 /\ 665 <= cell_y cell <= 1335)
    (cells (updateHeatmap players)) /\
  NoDup (map (fun cell => (cell_x cell, cell_y cell))
           (cells (updateHeatmap players))) /\
  (List.length (cells (updateHeatmap players)) <= 4216)%nat.
Proof.
  split; [| split].
  - rewrite Forall_forall. intros cell Hin.
    destruct (proj1 (in_cells_iff _ _) Hin) as (c & Hc & Hg & ->).
    pose proof (clampAlpha_painted_range _ Hg) as Ha.
    destruct (gridCells_bounds c Hc) as [Hx Hy].
    unfold fillCell, gridSize. cbn [cell_alpha cell_w cell_h cell_x cell_y].
    split; [exact Ha |]. split; [reflexivity |]. split; [reflexivity |].
    split; [exists c; split; [exact Hc | split; lra] |].
    destruct Hx as [Hx1 Hx2]. destruct Hy as [Hy1 Hy2].
    apply IZR_le in Hx1, Hx2, Hy1, Hy2. lra.
  - rewrite updateHeatmap_cells. apply NoDup_painted_corners.
    exact NoDup_gridCells.
  - rewrite updateHeatmap_cells, <- gridCells_length.
    apply flat_map_length_le. intros c. rewrite paintAt_criterion.
    destruct (num_gtb _ (Fin 0.7)); cbn; lia.
Qed.

(** ** The furthest point is the first maximum *)

(** After the samples [l], from the initial state: [maxDist] bounds every
    [minDist] met; while it is 0 nothing was recorded; once it is above 0
    it is the [minDist] of the recorded sample, which is strictly above all
    samples met before it. *)
Lemma scan_first_maximum (team : list Player) (l : list (Z * Z)) :
  let st := fold_left (fun s c => sample team (IZR (snd c)) s (IZR (fst c))) l
              (mkScan (Fin 0) (0, 0) []) in
  num_le (Fin 0) (maxDist st) /\
  Forall (fun c => num_le (minDistAt team c) (maxDist st)) l /\
  (num_lt (Fin 0) (maxDist st) ->
   exists l1 c l2,
     l = l1 ++ c :: l2 /\
     maxPoint st = coords c /\
     maxDist st = minDistAt team c /\
     Forall (fun c' => num_lt (minDistAt team c') (minDistAt team c)) l1) /\
  (~ num_lt (Fin 0) (maxDist st) ->
   maxDist st = Fin 0 /\ maxPoint st = (0, 0)).
Proof.
  induction l as [| c l IH] using rev_ind.
  - cbn [fold_left maxDist maxPoint]. split; [num_order |].
    split; [constructor |]. split; [| intros _; split; reflexivity].
    intros H. exfalso. num_order.
  - rewrite fold_left_app. cbn [fold_left].
    set (st := fold_left _ l _) in *. cbv zeta in IH.
    destruct IH as (Hnn & Hub & Hpos & Hzero).
    rewrite sample_maxDist, sample_maxPoint.
    change (snd (evaluate team (IZR (fst c)) (IZR (snd c))))
      with (minDistAt team c).
    destruct (num_gtb (minDistAt team c) (maxDist st)) eqn:Hg.
    + assert (Hlt : num_lt (maxDist st) (minDistAt team c)) by exact Hg.
      split; [apply num_lt_le; eapply num_le_lt_trans; eassumption |].
      split.
      * apply Forall_app. split.
        -- rewrite Forall_forall in *. intros c' Hc'.
           apply num_lt_le. eapply num_le_lt_trans; [apply Hub; exact Hc' | exact Hlt].
        -- constructor; [apply num_le_refl | constructor].
      * split.
        -- intros _. exists l, c, []. split; [reflexivity |].
           split; [reflexivity |]. split; [reflexivity |].
           rewrite Forall_forall in *. intros c' Hc'.
           eapply num_le_lt_trans; [apply Hub; exact Hc' | exact Hlt].
        -- intros Hn. exfalso. apply Hn.
           eapply num_le_lt_trans; eassumption.
    + split; [exact Hnn |]. split.
      * apply Forall_app. split; [exact Hub |].
        constructor; [exact Hg | constructor].
      * split.
        -- intros Hp. destruct (Hpos Hp) as (l1 & c0 & l2 & Hl & Hpt & Hmd & Hbefore).
           exists l1, c0, (l2 ++ [c]). rewrite Hl, <- app_assoc.
           split; [reflexivity |]. split; [exact Hpt |]. split; assumption.
        -- exact Hzero.
Qed.

(** X5: the scan records the first sample of greatest [minDist]: after it
    [maxDist] bounds the [minDist] of every sample, and when a marker is
    drawn [maxDist] is the [minDist] of a sample that is strictly above
    every sample scanned before it, and the marker sits at that sample,
    clamped. *)
Theorem furthest_point_first_maximum (players : list Player) :
  let team := filter startsWithA players in
  Forall (fun c => num_le (minDistAt team c) (maxDist (scanGrid team))) gridCells /\
  (forall mk : Marker,
     marker (updateHeatmap players) = Some mk ->
     exists l1 c l2,
       gridCells = l1 ++ c :: l2 /\
       maxDist (scanGrid team) = minDistAt team c /\
       Forall (fun c' => num_lt (minDistAt team c') (minDistAt team c)) l1 /\
       drawX mk = Rmax 30 (Rmin (IZR (fst c)) 580) /\
       drawY mk = Rmax 700 (Rmin (IZR (snd c)) 1310)).
Proof.
  intros team.
  pose proof (scan_first_maximum team gridCells) as H. cbv zeta in H.
  rewrite <- scanGrid_cells in H.
  destruct H as (_ & Hub & Hpos & _).
  split; [exact Hub |].
  intros mk Hmk. unfold updateHeatmap in Hmk. cbn [marker] in Hmk.
  fold team in Hmk. unfold furthestMarker in Hmk.
  destruct (num_gtb (maxDist (scanGrid team)) (Fin 0)) eqn:Hg; [| discriminate].
  destruct (Hpos Hg) as (l1 & c & l2 & Hl & Hpt & Hmd & Hbefore).
  exists l1, c, l2.
  split; [exact Hl |]. split; [exact Hmd |]. split; [exact Hbefore |].
  injection Hmk as <-. rewrite Hpt.
  unfold coords, COURT_WIDTH, COURT_HEIGHT. cbn [drawX drawY fst snd].
  split; f_equal; try f_equal; lra.
Qed.

(** A roster whose Team A players all have [x >= 15], as the drag clamp and
    the solver leave them, always gets a marker: nobody stands on the
    sample [(0, 670)]. *)
Lemma marker_present (players : list Player) :
  Forall (fun p => startsWithA p = true -> 15 <= x p) players ->
  marker (updateHeatmap players) <> None.
Proof.
  intros Hall. apply marker_iff_positive_sample.
  destruct gridCells_head as [tl ->]. apply Exists_cons_hd.
  unfold minDistAt. cbn [fst snd]. apply minDist_positive.
  rewrite Forall_forall in *. intros p Hp.
  apply filter_In in Hp. destruct Hp as [Hp HA].
  specialize (Hall p Hp HA).
  assert (H1 : 0 < (0 - x p) * (0 - x p)) by nra.
  assert (H2 : 0 <= (670 - y p) * (670 - y p)) by apply Rle_0_sqr.
  lra.
Qed.

Lemma furthest_point_first_maximum_witness :
  exists mk l1 c l2,
    marker (updateHeatmap (refreshRadii players0)) = Some mk /\
    gridCells = l1 ++ c :: l2 /\
    drawX mk = Rmax 30 (Rmin (IZR (fst c)) 580) /\
    drawY mk = Rmax 700 (Rmin (IZR (snd c)) 1310).
Proof.
  destruct (marker (updateHeatmap (refreshRadii players0))) as [mk |] eqn:Hm.
  - destruct (proj2 (furthest_point_first_maximum (refreshRadii players0)) mk Hm)
      as (l1 & c & l2 & Hl & _ & _ & Hx & Hy).
    exists mk, l1, c, l2. repeat split; assumption.
  - exfalso. revert Hm. apply marker_present.
    unfold refreshRadii, players0. cbn [map].
    repeat apply Forall_cons; try apply Forall_nil;
      cbn [x refreshRadius]; intros _; lra.
Defined.

(** X6: a roster whose Team A players all have [x >= 15], which is what
    the drag clamp gives every player, always gets a marker, and the marker
    then lies in the safe region: nobody can stand on the sample
    [(0, 670)]. *)
Theorem marker_drawn_for_clamped_roster (players : list Player) :
  Forall (fun p => startsWithA p = true -> 15 <= x p) players ->
  exists mk : Marker,
    marker (updateHeatmap players) = Some mk /\
    30 <= drawX mk <= 580 /\ 700 <= drawY mk <= 1310 /\ markerR mk = 30.
Proof.
  intros Hall.
  destruct (marker (updateHeatmap players)) as [mk |] eqn:Hm.
  - exists mk. split; [reflexivity |].
    unfold updateHeatmap in Hm. cbn [marker] in Hm.
    destruct (furthestMarker_bounds _ _ Hm) as (Hx & Hy & Hr).
    repeat split; lra.
  - exfalso. revert Hm. apply marker_present. exact Hall.
Qed.

Lemma marker_drawn_for_clamped_roster_witness :
  let a1 := mkPlayer "A1" "A1" 150 1050 "bg-blue-500" 0 in
  let b1 := mkPlayer "B1" "B1" 150 200 "bg-red-500" 0 in
  let roster := [dragMove 1 a1 (-4000) 30; dragMove 1 b1 10 10] in
  exists mk : Marker,
    marker (updateHeatmap roster) = Some mk /\
    30 <= drawX mk <= 580 /\ 700 <= drawY mk <= 1310 /\ markerR mk = 30.
Proof.
  intros a1 b1 roster.
  apply marker_drawn_for_clamped_roster.
  unfold roster. repeat apply Forall_cons; try apply Forall_nil; intros _.
  - apply (dragMove_teamA_half 1 a1 (-4000) 30). reflexivity.
  - unfold dragMove, PLAYER_RADIUS. cbn [x]. apply Rmax_l.
Defined.

(** ** The heatmap once the watcher has stored the radii *)

Lemma startsWithA_refreshRadius (p : Player) :
  startsWithA (refreshRadius p) = startsWithA p.
Proof. reflexivity. Qed.

Lemma filter_refreshRadii (players : list Player) :
  filter startsWithA (refreshRadii players) =
  refreshRadii (filter startsWithA players).
Proof.
  unfold refreshRadii.
  induction players as [| p ps IH]; cbn [map filter]; [reflexivity |].
  rewrite startsWithA_refreshRadius.
  destruct (startsWithA p); cbn [map]; rewrite IH; reflexivity.
Qed.

Lemma ratioTo_refreshRadius (cx cy : R) (p : Player) :
  ratioTo cx cy (refreshRadius p) =
  distTo cx cy p / calculateDefenseRadius (y p).
Proof.
  unfold ratioTo, refreshRadius, distTo. cbn [x y defenseRadius].
  rewrite or1_nonzero; [reflexivity |].
  pose proof (radius_ge_net (y p)). lra.
Qed.

Lemma ratio_above_iff (d r t : R) : 0 < r -> (t < d / r <-> t * r < d).
Proof.
  intros Hr. split; intros H.
  - apply Rmult_lt_compat_r with (r := r) in H; [| exact Hr].
    unfold Rdiv in H. rewrite Rmult_assoc, Rinv_l, Rmult_1_r in H by lra.
    exact H.
  - apply Rmult_lt_reg_r with r; [exact Hr |].
    unfold Rdiv. rewrite Rmult_assoc, Rinv_l, Rmult_1_r by lra. exact H.
Qed.

Lemma sample_painted_iff (players : list Player) (c : Z * Z) :
  In c gridCells ->
  ((exists a, In (fillCell (IZR (fst c)) (IZR (snd c)) a)
                 (cells (updateHeatmap players))) <->
   num_gtb (fst (evaluate (filter startsWithA players)
                   (IZR (fst c)) (IZR (snd c)))) (Fin 0.7) = true).
Proof.
  intros Hc. split.
  - intros (a & Ha).
    destruct (proj1 (in_cells_iff _ _) Ha) as (c' & _ & Hg & Heq).
    apply fillCell_inj in Heq. destruct Heq as (Hx & Hy & _).
    rewrite Hx, Hy. exact Hg.
  - intros Hg. eexists. apply in_cells_iff.
    exists c. split; [exact Hc |]. split; [exact Hg | reflexivity].
Qed.

(** X7: with the radii the watcher stores, a sample is painted exactly
    when every Team A player is farther from it than 0.7 times the defense
    radius at that player's depth; so no sample within 84 units of a Team A
    player is ever painted. *)
Theorem refreshed_heatmap_rule (players : list Player) (c : Z * Z) :
  In c gridCells ->
  let cx := IZR (fst c) in
  let cy := IZR (snd c) in
  let is_painted :=
    exists a, In (fillCell cx cy a) (cells (updateHeatmap (refreshRadii players))) in
  (is_painted <->
   Forall (fun p => startsWithA p = true ->
                    0.7 * calculateDefenseRadius (y p) < distTo cx cy p)
     players) /\
  (forall p, In p players -> startsWithA p = true ->
             distTo cx cy p <= 84 -> ~ is_painted).
Proof.
  intros Hc cx cy is_painted.
  assert (Hiff : is_painted <->
                 Forall (fun p => startsWithA p = true ->
                                  0.7 * calculateDefenseRadius (y p) < distTo cx cy p)
                   players).
  { unfold is_painted, cx, cy. rewrite (sample_painted_iff _ c Hc).
    rewrite minRatio_above_iff, filter_refreshRadii.
    unfold refreshRadii. rewrite !Forall_forall. split.
    - intros H p Hp HA.
      assert (Hin : In (refreshRadius p) (map refreshRadius (filter startsWithA players))).
      { apply in_map. apply filter_In. split; assumption. }
      specialize (H _ Hin). rewrite ratioTo_refreshRadius in H.
      assert (Hr : 0 < calculateDefenseRadius (y p))
        by (pose proof (radius_ge_net (y p)); lra).
      exact (proj1 (ratio_above_iff _ (calculateDefenseRadius (y p)) 0.7 Hr) H).
    - intros H q Hq. apply in_map_iff in Hq. destruct Hq as (p & <- & Hp).
      apply filter_In in Hp. destruct Hp as [Hp HA].
      rewrite ratioTo_refreshRadius.
      assert (Hr : 0 < calculateDefenseRadius (y p))
        by (pose proof (radius_ge_net (y p)); lra).
      apply (proj2 (ratio_above_iff _ (calculateDefenseRadius (y p)) 0.7 Hr)).
      apply H; assumption. }
  split; [exact Hiff |].
  intros p Hp HA Hd Hpaint. apply Hiff in Hpaint.
  rewrite Forall_forall in Hpaint. specialize (Hpaint p Hp HA).
  pose proof (radius_ge_net (y p)). lra.
Qed.

Lemma refreshed_heatmap_rule_witness :
  ~ exists a, In (fillCell (IZR (fst (150, 1050)%Z)) (IZR (snd (150, 1050)%Z)) a)
                (cells (updateHeatmap (refreshRadii players0))).
Proof.
  assert (Hc : In (150, 1050)%Z gridCells).
  { apply in_gridCells. unfold columns, rows, gridSize. cbv zeta.
    rewrite !forRange_spec by lia. split.
    - exists 15%nat. split; lia.
    - exists 38%nat. split; lia. }
  apply (proj2 (refreshed_heatmap_rule players0 (150, 1050)%Z Hc)
           (mkPlayer "A1" "A1" 150 1050 "bg-blue-500" 0)).
  - now left.
  - reflexivity.
  - unfold distTo. cbn [fst snd x y].
    replace ((150 - 150) * (150 - 150) + (1050 - 1050) * (1050 - 1050)) with 0 by lra.
    rewrite sqrt_0. lra.
Defined.

(** ** The solver: the three states and the clamp *)

Lemma stateTarget_net (movingPlayer : Player) :
  y movingPlayer < 900 ->
  stateTarget movingPlayer =
  (centerX - (x movingPlayer - centerX) * 0.2,
   Rmin (CENTER_Y + (CENTER_Y - y movingPlayer) * 0.25) 1300).
Proof.
  intros H. unfold stateTarget, ATTACK_THRESHOLD, NET_THRESHOLD.
  rewrite gtb_false by lra. rewrite ltb_true by exact H. reflexivity.
Qed.

(** The margin of the clamp, for a proposed [targetY] below the net line. *)
Lemma edgeMargin_value (ty : R) :
  670 <= ty ->
  Rmax PLAYER_RADIUS (calculateDefenseRadius ty * 0.5) = 60 + (ty - 670) * 6 / 67.
Proof.
  intros H. rewrite radius_unfold, Rabs_pos_eq by lra.
  unfold PLAYER_RADIUS. rewrite Rmax_right by lra. lra.
Qed.

Lemma safetyClamp_unfold (tx ty : R) :
  670 <= ty ->
  let mg := 60 + (ty - 670) * 6 / 67 in
  safetyClamp (tx, ty) =
  mkPoint (Rmax mg (Rmin tx (610 - mg)))
          (Rmax (670 + mg) (Rmin ty (1340 - mg))).
Proof.
  intros H mg. unfold safetyClamp.
  rewrite (edgeMargin_value ty H). reflexivity.
Qed.

(** Every state proposes a [targetY] between 907.5 and 1300. *)
Lemma stateTarget_y_window (movingPlayer : Player) :
  907.5 <= snd (stateTarget movingPlayer) <= 1300.
Proof.
  unfold stateTarget, ATTACK_THRESHOLD, NET_THRESHOLD, gtb, ltb,
    CENTER_Y, NET_Y, BACK_LINE_Y.
  destruct (Rlt_dec 1200 (y movingPlayer)) as [Ha | Ha]; cbn [snd]; [lra |].
  destruct (Rlt_dec (y movingPlayer) 900) as [Hn | Hn]; cbn [snd].
  - minmax_cases.
  - lra.
Qed.

(** X8: in the NET_PLAY state, [y < 900], the teammate is sent behind the
    centre line, to [1031.25 < y <= 1300]; for a mover in Team A's half the
    clamp changes nothing, the target is
    [(centerX - (x - centerX) * 0.2, CENTER_Y + (CENTER_Y - y) * 0.25)],
    on the other side of the centre line than the mover. *)
Theorem net_play_target (movingPlayer teammate : Player) :
  y movingPlayer < 900 ->
  let target := calculateOptimalPosition movingPlayer teammate in
  1031.25 < pt_y target <= 1300 /\
  (inHalfA (x movingPlayer) (y movingPlayer) ->
   target = mkPoint (centerX - (x movingPlayer - centerX) * 0.2)
                    (CENTER_Y + (CENTER_Y - y movingPlayer) * 0.25) /\
   (centerX < x movingPlayer -> pt_x target < centerX) /\
   (x movingPlayer < centerX -> centerX < pt_x target)).
Proof.
  intros Hy target. unfold target, calculateOptimalPosition.
  rewrite stateTarget_net by exact Hy.
  set (ty := Rmin (CENTER_Y + (CENTER_Y - y movingPlayer) * 0.25) 1300).
  assert (Hty : 1031.25 < ty <= 1300).
  { unfold ty, CENTER_Y, NET_Y, BACK_LINE_Y. minmax_cases. }
  rewrite safetyClamp_unfold by lra. cbv zeta. cbn [pt_y].
  split; [minmax_cases |].
  intros [[Hx1 Hx2] [Hy1 Hy2]].
  assert (Hraw : ty = CENTER_Y + (CENTER_Y - y movingPlayer) * 0.25).
  { unfold ty, CENTER_Y, NET_Y, BACK_LINE_Y. apply Rmin_left. lra. }
  assert (Hty' : ty <= 1085).
  { rewrite Hraw. unfold CENTER_Y, NET_Y, BACK_LINE_Y. lra. }
  assert (Heq : mkPoint
                  (Rmax (60 + (ty - 670) * 6 / 67)
                     (Rmin (centerX - (x movingPlayer - centerX) * 0.2)
                        (610 - (60 + (ty - 670) * 6 / 67))))
                  (Rmax (670 + (60 + (ty - 670) * 6 / 67))
                     (Rmin ty (1340 - (60 + (ty - 670) * 6 / 67)))) =
                mkPoint (centerX - (x movingPlayer - centerX) * 0.2) ty).
  { unfold centerX, COURT_WIDTH. f_equal; apply clamp_id; lra. }
  rewrite Heq, <- Hraw. cbn [pt_x]. unfold centerX, COURT_WIDTH.
  split; [reflexivity |]. split; intros; lra.
Qed.

Lemma net_play_target_witness :
  let a1 := mkPlayer "A1" "A1" 500 800 "bg-blue-500" 0 in
  let a2 := mkPlayer "A2" "A2" 460 1050 "bg-blue-500" 0 in
  calculateOptimalPosition a1 a2 = mkPoint 266 1056.25.
Proof.
  intros a1 a2.
  assert (Hy : y a1 < 900) by (cbn; lra).
  assert (Hh : inHalfA (x a1) (y a1)) by (unfold inHalfA; cbn; lra).
  rewrite (proj1 (proj2 (net_play_target a1 a2 Hy) Hh)).
  unfold centerX, COURT_WIDTH, CENTER_Y, NET_Y, BACK_LINE_Y. cbn [x y a1].
  f_equal; lra.
Defined.

Lemma defense_sign (dx : R) :
  (0 <= dx -> sign (or1 dx) = 1) /\ (dx < 0 -> sign (or1 dx) = -1).
Proof.
  split; intros H.
  - destruct (Req_dec_T dx 0) as [-> | Hne].
    + rewrite or1_zero. apply sign_pos. lra.
    + rewrite or1_nonzero by exact Hne. apply sign_pos. lra.
  - rewrite or1_nonzero by lra. apply sign_neg. exact H.
Qed.

(** X9: in the DEFENSE state, [900 <= y <= 1200], the teammate's [y] is
    the see-saw value [CENTER_Y - (y - CENTER_Y) * 0.5], untouched by the
    clamp, and its [x] is on the other side of the centre line than the
    mover, at least 20 and at most 260 away from it; a mover exactly on
    the centre line counts as being on the right. *)
Theorem defense_target (movingPlayer teammate : Player) :
  900 <= y movingPlayer <= 1200 ->
  let target := calculateOptimalPosition movingPlayer teammate in
  pt_y target = CENTER_Y - (y movingPlayer - CENTER_Y) * 0.5 /\
  (centerX <= x movingPlayer ->
   centerX - 260 <= pt_x target <= centerX - 20) /\
  (x movingPlayer < centerX ->
   centerX + 20 <= pt_x target <= centerX + 260).
Proof.
  intros Hy target. unfold target, calculateOptimalPosition.
  rewrite stateTarget_defense by exact Hy.
  set (ty := CENTER_Y - (y movingPlayer - CENTER_Y) * 0.5).
  assert (Hty : 907.5 <= ty <= 1057.5).
  { unfold ty, CENTER_Y, NET_Y, BACK_LINE_Y. lra. }
  rewrite safetyClamp_unfold by lra. cbv zeta. cbn [pt_x pt_y].
  split; [apply clamp_id; lra |].
  set (dx := x movingPlayer - centerX).
  assert (Hoff : 20 <= Rmax 20 (260 - Rabs dx * 0.8) <= 260).
  { pose proof (Rabs_pos dx). minmax_cases. }
  set (off := Rmax 20 (260 - Rabs dx * 0.8)) in *.
  destruct (defense_sign dx) as [Hpos Hneg].
  split; intros Hx.
  - rewrite Hpos by (unfold dx; lra).
    unfold centerX, COURT_WIDTH in *. minmax_cases.
  - rewrite Hneg by (unfold dx; lra).
    unfold centerX, COURT_WIDTH in *. minmax_cases.
Qed.

Lemma defense_target_witness :
  let a1 := mkPlayer "A1" "A1" 500 1105 "bg-blue-500" 0 in
  let a2 := mkPlayer "A2" "A2" 150 1050 "bg-blue-500" 0 in
  pt_y (calculateOptimalPosition a1 a2) = 955 /\
  pt_x (calculateOptimalPosition a1 a2) <= 285.
Proof.
  intros a1 a2.
  assert (Hy : 900 <= y a1 <= 1200) by (cbn; lra).
  destruct (defense_target a1 a2 Hy) as (Hty & Hright & _).
  split.
  - rewrite Hty. unfold CENTER_Y, NET_Y, BACK_LINE_Y. cbn [y a1]. lra.
  - assert (Hx : centerX <= x a1) by (unfold centerX, COURT_WIDTH; cbn; lra).
    specialize (Hright Hx). unfold centerX, COURT_WIDTH in Hright. lra.
Defined.

(** X10: whatever the mover, the point the solver returns keeps half of
    the defense radius at its own depth away from both side lines, from the
    net line and from the back line; in particular it lies in Team A's
    half. *)
Theorem solver_keeps_margin (movingPlayer teammate : Player) :
  let target := calculateOptimalPosition movingPlayer teammate in
  let half := calculateDefenseRadius (pt_y target) * 0.5 in
  60 <= half <= 120 /\
  half <= pt_x target <= COURT_WIDTH - half /\
  NET_Y + half <= pt_y target <= COURT_HEIGHT - half /\
  inHalfA (pt_x target) (pt_y target).
Proof.
  intros target half. unfold half, target, calculateOptimalPosition.
  pose proof (stateTarget_y_window movingPlayer) as Hw.
  destruct (stateTarget movingPlayer) as [tx ty]. cbn [snd] in Hw.
  rewrite safetyClamp_unfold by lra. cbv zeta. cbn [pt_x pt_y].
  set (mg := 60 + (ty - 670) * 6 / 67).
  assert (Hmg : 81 <= mg <= 117) by (unfold mg; lra).
  set (fy := Rmax (670 + mg) (Rmin ty (1340 - mg))).
  assert (Hfy : 670 + mg <= fy <= 1340 - mg /\ fy <= ty).
  { unfold fy. minmax_cases. }
  assert (Hr : calculateDefenseRadius fy * 0.5 = 60 + (fy - 670) * 6 / 67).
  { rewrite radius_unfold, Rabs_pos_eq by lra. lra. }
  rewrite Hr.
  assert (Hx : mg <= Rmax mg (Rmin tx (610 - mg)) <= 610 - mg)
    by (apply clamp_bounds; lra).
  assert (Hdef : mg = 60 + (ty - 670) * 6 / 67) by reflexivity.
  clearbody mg fy.
  unfold COURT_WIDTH, COURT_HEIGHT, NET_Y, inHalfA.
  repeat split; lra.
Qed.

(** ** The solver and the mirror image of the court *)

Lemma stateTarget_mirror (movingPlayer : Player) :
  x movingPlayer <> centerX \/ ~ 900 <= y movingPlayer <= 1200 ->
  stateTarget (mirror movingPlayer) =
  (COURT_WIDTH - fst (stateTarget movingPlayer), snd (stateTarget movingPlayer)).
Proof.
  intros Hside.
  unfold stateTarget, mirror, ATTACK_THRESHOLD, NET_THRESHOLD, gtb, ltb.
  cbn [x y].
  destruct (Rlt_dec 1200 (y movingPlayer)) as [Ha | Ha]; cbn [fst snd].
  - unfold centerX, COURT_WIDTH. f_equal. lra.
  - destruct (Rlt_dec (y movingPlayer) 900) as [Hn | Hn]; cbn [fst snd].
    + unfold centerX, COURT_WIDTH. f_equal. lra.
    + assert (Hx : x movingPlayer <> centerX) by (destruct Hside; [assumption | lra]).
      f_equal.
      replace (COURT_WIDTH - x movingPlayer - centerX)
        with (- (x movingPlayer - centerX)) by (unfold centerX, COURT_WIDTH; lra).
      rewrite Rabs_Ropp.
      set (dx := x movingPlayer - centerX) in *.
      set (off := Rmax 20 (260 - Rabs dx * 0.8)).
      destruct (defense_sign dx) as [Hpos Hneg].
      destruct (defense_sign (- dx)) as [Hpos' Hneg'].
      destruct (Rlt_dec dx 0) as [Hlt | Hge].
      * rewrite Hneg by exact Hlt. rewrite Hpos' by lra.
        unfold centerX, COURT_WIDTH. lra.
      * assert (Hgt : 0 < dx) by (unfold dx in *; lra).
        rewrite Hpos by lra. rewrite Hneg' by lra.
        unfold centerX, COURT_WIDTH. lra.
Qed.

Lemma stateTarget_same_position (p q : Player) :
  x p = x q -> y p = y q -> stateTarget p = stateTarget q.
Proof. intros Hx Hy. unfold stateTarget. rewrite Hx, Hy. reflexivity. Qed.

Lemma defense_centre_goes_left (movingPlayer teammate : Player) :
  x movingPlayer = centerX ->
  900 <= y movingPlayer <= 1200 ->
  pt_x (calculateOptimalPosition movingPlayer teammate) <= centerX - 20.
Proof.
  intros Hx Hy. unfold calculateOptimalPosition.
  rewrite stateTarget_defense by exact Hy.
  set (ty := CENTER_Y - (y movingPlayer - CENTER_Y) * 0.5).
  assert (Hty : 907.5 <= ty <= 1057.5).
  { unfold ty, CENTER_Y, NET_Y, BACK_LINE_Y. lra. }
  rewrite safetyClamp_unfold by lra. cbv zeta. cbn [pt_x].
  rewrite Hx. replace (centerX - centerX) with 0 by lra.
  rewrite or1_zero, sign_pos, Rabs_R0 by lra.
  unfold centerX, COURT_WIDTH. minmax_cases.
Qed.

(** X11: the solver commutes with the mirror image about the centre line:
    the target for the mirrored mover is the mirrored target.  The one
    exception is a mover of the DEFENSE state exactly on the centre line:
    it is its own mirror image, and its teammate is sent to the left. *)
Theorem solver_mirror (movingPlayer teammate teammate' : Player) :
  (x movingPlayer <> centerX \/ ~ 900 <= y movingPlayer <= 1200 ->
   calculateOptimalPosition (mirror movingPlayer) teammate' =
   mkPoint (COURT_WIDTH - pt_x (calculateOptimalPosition movingPlayer teammate))
           (pt_y (calculateOptimalPosition movingPlayer teammate))) /\
  (x movingPlayer = centerX -> 900 <= y movingPlayer <= 1200 ->
   calculateOptimalPosition (mirror movingPlayer) teammate' =
   calculateOptimalPosition movingPlayer teammate /\
   pt_x (calculateOptimalPosition movingPlayer teammate) <= centerX - 20).
Proof.
  split.
  - intros Hside. unfold calculateOptimalPosition.
    rewrite (stateTarget_mirror movingPlayer Hside).
    pose proof (stateTarget_y_window movingPlayer) as Hw.
    destruct (stateTarget movingPlayer) as [tx ty]. cbn [fst snd] in *.
    rewrite !safetyClamp_unfold by lra. cbv zeta. cbn [pt_x pt_y].
    unfold COURT_WIDTH. f_equal. minmax_cases.
  - intros Hx Hy. split; [| apply defense_centre_goes_left; assumption].
    unfold calculateOptimalPosition. f_equal.
    apply stateTarget_same_position; [| reflexivity].
    unfold mirror. cbn [x]. rewrite Hx. unfold centerX, COURT_WIDTH. lra.
Qed.

Lemma solver_mirror_witness :
  let a1 := mkPlayer "A1" "A1" 500 1105 "bg-blue-500" 0 in
  let a0 := mkPlayer "A1" "A1" 305 1105 "bg-blue-500" 0 in
  let a2 := mkPlayer "A2" "A2" 150 1050 "bg-blue-500" 0 in
  calculateOptimalPosition (mirror a1) a2 =
  mkPoint (COURT_WIDTH - pt_x (calculateOptimalPosition a1 a2))
          (pt_y (calculateOptimalPosition a1 a2)) /\
  pt_x (calculateOptimalPosition a0 a2) <= centerX - 20.
Proof.
  intros a1 a0 a2. split.
  - apply (proj1 (solver_mirror a1 a2 a2)).
    left. unfold centerX, COURT_WIDTH. cbn [x a1]. lra.
  - apply (proj2 (solver_mirror a0 a2 a2)).
    + unfold centerX, COURT_WIDTH. cbn [x a0]. lra.
    + cbn [y a0]. lra.
Defined.

(** ** The defense radius across the court *)

(** X12: the defense radius is symmetric about the net,
    [radius (1340 - y) = radius y], so that it is 240 on Team B's back
    line [y = 0] too; below the net it is [120 + (y - 670) * 12 / 67]; and
    it changes by at most [12 / 67] per unit of depth. *)
Theorem radius_symmetric_lipschitz :
  (forall py : R, calculateDefenseRadius (1340 - py) = calculateDefenseRadius py) /\
  calculateDefenseRadius 0 = 240 /\
  (forall py : R, 670 <= py ->
     calculateDefenseRadius py = 120 + (py - 670) * 12 / 67) /\
  (forall y1 y2 : R,
     Rabs (calculateDefenseRadius y1 - calculateDefenseRadius y2) <=
     12 / 67 * Rabs (y1 - y2)).
Proof.
  split; [| split; [| split]].
  - intros py. rewrite !radius_unfold. abs_cases.
  - rewrite radius_unfold. abs_cases.
  - intros py H. rewrite radius_unfold, Rabs_pos_eq by lra. lra.
  - intros y1 y2. rewrite !radius_unfold. abs_cases.
Qed.

Lemma radius_symmetric_lipschitz_witness :
  calculateDefenseRadius 1005 = 120 + (1005 - 670) * 12 / 67.
Proof.
  apply (proj1 (proj2 (proj2 radius_symmetric_lipschitz))). lra.
Defined.

(** ** Dragging *)

(** X13: a drag step changes the position only; it leaves [x] in
    [[15, 595]] and keeps each team on its side of the net, Team A in
    [[685, 1325]] and Team B in [[15, 655]]; a step that stays inside
    these bounds is applied as it is; a Team A player dragged to the net or
    beyond stops at [y = 685], a Team B player at [y = 655]. *)
Theorem dragMove_clamps (scaleFactor : R) (player : Player) (edx edy : R) :
  let p' := dragMove scaleFactor player edx edy in
  let newX := x player + edx / scaleFactor in
  let newY := y player + edy / scaleFactor in
  (id p' = id player /\ label p' = label player /\ color p' = color player /\
   defenseRadius p' = defenseRadius player) /\
  15 <= x p' <= 595 /\
  (15 <= newX <= 595 -> x p' = newX) /\
  (startsWithA player = true ->
     685 <= y p' <= 1325 /\ NET_Y < y p' /\
     (685 <= newY <= 1325 -> y p' = newY) /\
     (newY <= 685 -> y p' = 685)) /\
  (startsWithA player = false ->
     15 <= y p' <= 655 /\ y p' < NET_Y /\
     (15 <= newY <= 655 -> y p' = newY) /\
     (655 <= newY -> y p' = 655)).
Proof.
  intros p' newX newY. unfold p', dragMove, PLAYER_RADIUS, COURT_WIDTH,
    COURT_HEIGHT, NET_Y.
  fold newX newY.
  split.
  { destruct (startsWithA player); repeat split. }
  split.
  { destruct (startsWithA player); cbn [x];
      pose proof (clamp_bounds 15 (610 - 15) newX); lra. }
  split.
  { intros H. destruct (startsWithA player); cbn [x]; apply clamp_id; lra. }
  split; intros HA; rewrite HA; cbn [y].
  - pose proof (clamp_bounds (670 + 15) (1340 - 15) newY).
    split; [lra |]. split; [lra |]. split.
    + intros H'. apply clamp_id. lra.
    + intros H'. rewrite Rmin_left by lra. rewrite Rmax_left by lra. lra.
  - pose proof (clamp_bounds 15 (670 - 15) newY).
    split; [lra |]. split; [lra |]. split.
    + intros H'. apply clamp_id. lra.
    + intros H'. rewrite Rmin_right by lra. rewrite Rmax_right by lra. lra.
Qed.

Lemma dragMove_clamps_witness :
  let a1 := mkPlayer "A1" "A1" 150 1050 "bg-blue-500" 0 in
  let b1 := mkPlayer "B1" "B1" 150 200 "bg-red-500" 0 in
  y (dragMove 1 a1 0 (-1050)) = 685 /\ y (dragMove 1 b1 0 1140) = 655.
Proof.
  intros a1 b1. split.
  - destruct (dragMove_clamps 1 a1 0 (-1050)) as (_ & _ & _ & HA & _).
    destruct (HA eq_refl) as (_ & _ & _ & Hnet).
    apply Hnet. cbn [y a1]. lra.
  - destruct (dragMove_clamps 1 b1 0 1140) as (_ & _ & _ & _ & HB).
    destruct (HB eq_refl) as (_ & _ & _ & Hnet).
    apply Hnet. cbn [y b1]. lra.
Defined.

(** X14: the [end] listener starts a motion only when auto-rotation is
    enabled and the dragged player is a Team A player of the roster; the
    player it moves is then another Team A player of the roster, never the
    dragged one, and the motion goes from that player's position to the
    solver's target for the dragged player, in 400 ms from [now]. *)
Theorem dragEnd_rotates_teammate
    (enabled : bool) (players : list Player) (targetId : string) (now : R) :
  (enabled = false -> dragEnd enabled players targetId now = None) /\
  ((forall p, In p players -> id p = targetId -> startsWithA p = false) ->
   dragEnd enabled players targetId now = None) /\
  (forall (teammate : Player) (m : Motion),
     dragEnd enabled players targetId now = Some (teammate, m) ->
     enabled = true /\
     In teammate players /\ startsWithA teammate = true /\
     id teammate <> targetId /\
     exists player,
       In player players /\ id player = targetId /\
       startsWithA player = true /\
       m = mkMotion (x teammate) (y teammate)
             (pt_x (calculateOptimalPosition player teammate))
             (pt_y (calculateOptimalPosition player teammate))
             400 now).
Proof.
  unfold dragEnd. split; [| split].
  - intros ->. destruct (find _ players); reflexivity.
  - intros Hno.
    destruct (find (fun p => String.eqb (id p) targetId) players)
      as [player |] eqn:Hf; [| reflexivity].
    apply find_some in Hf. destruct Hf as [Hin Heq].
    apply String.eqb_eq in Heq.
    rewrite (Hno player Hin Heq), andb_false_r. reflexivity.
  - intros teammate m H.
    destruct (find (fun p => String.eqb (id p) targetId) players)
      as [player |] eqn:Hf; [| discriminate].
    apply find_some in Hf. destruct Hf as [Hin Heq].
    apply String.eqb_eq in Heq.
    destruct enabled; [| discriminate]. cbn [andb] in H.
    destruct (startsWithA player) eqn:HA; [| discriminate].
    destruct (find _ players) as [tm |] eqn:Hf2; [| discriminate].
    apply find_some in Hf2. destruct Hf2 as [Hin2 Hc].
    apply andb_true_iff in Hc. destruct Hc as [HA2 Hne].
    apply negb_true_iff, String.eqb_neq in Hne.
    injection H as <- <-.
    split; [reflexivity |]. split; [exact Hin2 |]. split; [exact HA2 |].
    split; [congruence |].
    exists player. repeat split; assumption.
Qed.

Lemma dragEnd_rotates_teammate_witness :
  exists m : Motion,
    dragEnd true players0 "A1" 0 =
    Some (mkPlayer "A2" "A2" 460 1050 "bg-blue-500" 0, m) /\
    duration m = 400 /\ startX m = 460 /\ startY m = 1050.
Proof.
  assert (H : exists m, dragEnd true players0 "A1" 0 =
                        Some (mkPlayer "A2" "A2" 460 1050 "bg-blue-500" 0, m))
    by (eexists; reflexivity).
  destruct H as [m Hm]. exists m. split; [exact Hm |].
  destruct (proj2 (proj2 (dragEnd_rotates_teammate true players0 "A1" 0)) _ _ Hm)
    as (_ & _ & _ & _ & player & _ & _ & _ & ->).
  repeat split.
Defined.

(** ** The frames of a motion *)

Lemma div_lt_1_iff (a d : R) : 0 < d -> (a / d < 1 <-> a < d).
Proof.
  intros Hd. split; intros H.
  - apply Rmult_lt_compat_r with (r := d) in H; [| exact Hd].
    unfold Rdiv in H. rewrite Rmult_assoc, Rinv_l, Rmult_1_r, Rmult_1_l in H by lra.
    exact H.
  - apply Rmult_lt_reg_r with d; [exact Hd |].
    unfold Rdiv. rewrite Rmult_assoc, Rinv_l, Rmult_1_r, Rmult_1_l by lra.
    exact H.
Qed.

Lemma animate_again_iff (m : Motion) (player : Player) (t : R) :
  0 < duration m ->
  (snd (animate m player t) = true <-> t - startTime m < duration m).
Proof.
  intros Hd. unfold animate. cbn [snd]. rewrite ltb_spec.
  rewrite <- (div_lt_1_iff (t - startTime m) (duration m) Hd).
  minmax_cases.
Qed.

Lemma animate_done (m : Motion) (player : Player) (t : R) :
  0 < duration m ->
  duration m <= t - startTime m ->
  x (fst (animate m player t)) = targetX m /\
  y (fst (animate m player t)) = targetY m.
Proof.
  intros Hd Ht. unfold animate. cbn [fst x y].
  assert (Hp : Rmin ((t - startTime m) / duration m) 1 = 1).
  { apply Rmin_right.
    destruct (Rle_lt_dec 1 ((t - startTime m) / duration m)) as [H | H];
      [exact H |].
    pose proof (proj1 (div_lt_1_iff _ _ Hd) H). lra. }
  rewrite Hp. split; lra.
Qed.

(** A frame overwrites the position: what an earlier frame left does not
    enter the next one. *)
Lemma animate_overwrites (m : Motion) (player : Player) (t0 t : R) :
  animate m (fst (animate m player t0)) t = animate m player t.
Proof. reflexivity. Qed.

(** X15: for a positive duration a frame asks for another one exactly
    when its elapsed time is below the duration; the remaining way to the
    target is the whole way times [(1 - p)^2], [p = min(elapsed / duration,
    1)]; and up to the duration the motion is ahead of the linear one:
    [elapsed / duration <= easeProgress], with three quarters of the way
    done at half the duration. *)
Theorem ease_out_shape (player : Player) (tx ty dur now e : R) :
  0 < dur ->
  let m := animatePlayerMove player tx ty dur now in
  let p := Rmin (e / dur) 1 in
  (snd (animate m player (now + e)) = true <-> e < dur) /\
  tx - x (fst (animate m player (now + e))) = (tx - x player) * (1 - p) ^ 2 /\
  ty - y (fst (animate m player (now + e))) = (ty - y player) * (1 - p) ^ 2 /\
  (0 <= e <= dur -> e / dur <= easeProgress m (now + e)) /\
  (e = dur / 2 -> easeProgress m (now + e) = 3 / 4).
Proof.
  intros Hd m p.
  assert (He : now + e - now = e) by lra.
  split.
  { rewrite animate_again_iff by exact Hd.
    unfold m, animatePlayerMove. cbn [startTime duration]. rewrite He.
    reflexivity. }
  unfold animate, easeProgress, m, animatePlayerMove.
  cbn [fst x y startTime duration startX startY targetX targetY].
  rewrite He. fold p.
  split; [lra |]. split; [lra |]. split.
  - intros [H0 H1].
    assert (Hq : 0 <= e / dur <= 1).
    { split.
      - apply Rmult_le_pos; [exact H0 | left; apply Rinv_0_lt_compat; exact Hd].
      - destruct (Rle_lt_dec (e / dur) 1) as [H | H]; [exact H |].
        assert (Hn : ~ e / dur < 1) by lra.
        destruct (Rle_lt_or_eq_dec _ _ H1) as [Hlt | Heq].
        + pose proof (proj2 (div_lt_1_iff e dur Hd) Hlt). lra.
        + subst e. unfold Rdiv in H. rewrite Rinv_r in H by lra. lra. }
    unfold p. rewrite Rmin_left by lra. nra.
  - intros ->. unfold p.
    replace (dur / 2 / dur) with (1 / 2) by (field; lra).
    rewrite Rmin_left by lra. lra.
Qed.

Lemma ease_out_shape_witness :
  let a2 := mkPlayer "A2" "A2" 100 1000 "bg-blue-500" 0 in
  let m := animatePlayerMove a2 200 1100 400 0 in
  snd (animate m a2 (0 + 100)) = true /\
  200 / 400 <= easeProgress m (0 + 200).
Proof.
  intros a2 m.
  assert (Hd : 0 < 400) by lra.
  split.
  - apply (proj1 (ease_out_shape a2 200 1100 400 0 100 Hd)). lra.
  - apply (proj1 (proj2 (proj2 (proj2 (ease_out_shape a2 200 1100 400 0 200 Hd))))).
    lra.
Defined.

Lemma runFrames_running (m : Motion) (times : list R) (t : R) (player : Player) :
  0 < duration m ->
  Forall (fun s => s - startTime m < duration m) (times ++ [t]) ->
  runFrames m player (times ++ [t]) = (fst (animate m player t), true).
Proof.
  intros Hd. revert player.
  induction times as [| s times IH]; intros player Hall;
    cbn [app runFrames]; inversion Hall as [| s' l' Hs Hrest]; subst.
  - destruct (animate m player t) as [p' again] eqn:E.
    assert (Ha : snd (animate m player t) = true)
      by (apply animate_again_iff; assumption).
    rewrite E in Ha. cbn [snd] in Ha. subst again. reflexivity.
  - destruct (animate m player s) as [p' again] eqn:E.
    assert (Ha : snd (animate m player s) = true)
      by (apply animate_again_iff; assumption).
    rewrite E in Ha. cbn [snd] in Ha. subst again.
    rewrite IH by exact Hrest.
    replace p' with (fst (animate m player s)) by (rewrite E; reflexivity).
    rewrite animate_overwrites. reflexivity.
Qed.

Lemma runFrames_stops (m : Motion) (before after : list R) (t : R)
    (player : Player) :
  0 < duration m ->
  Forall (fun s => s - startTime m < duration m) before ->
  duration m <= t - startTime m ->
  runFrames m player (before ++ t :: after) = (fst (animate m player t), false).
Proof.
  intros Hd Hall Ht. revert player.
  induction Hall as [| s before Hs Hall IH]; intros player; cbn [app runFrames].
  - destruct (animate m player t) as [p' again] eqn:E.
    assert (Ha : snd (animate m player t) = false).
    { destruct (snd (animate m player t)) eqn:Es; [| reflexivity].
      pose proof (proj1 (animate_again_iff m player t Hd) Es). lra. }
    rewrite E in Ha. cbn [snd] in Ha. subst again. reflexivity.
  - destruct (animate m player s) as [p' again] eqn:E.
    assert (Ha : snd (animate m player s) = true)
      by (apply animate_again_iff; assumption).
    rewrite E in Ha. cbn [snd] in Ha. subst again.
    rewrite IH.
    replace p' with (fst (animate m player s)) by (rewrite E; reflexivity).
    rewrite animate_overwrites. reflexivity.
Qed.

(** X16: run frame after frame, a motion of positive duration leaves the
    player where its latest frame alone would put it, whatever the frames
    before; the first frame at or after the duration puts the player
    exactly on the target and ends the motion: frames the host would offer
    later are not run. *)
Theorem runFrames_latest_frame (m : Motion) (player : Player)
    (before after : list R) (t : R) :
  0 < duration m ->
  Forall (fun s => s - startTime m < duration m) before ->
  (t - startTime m < duration m ->
   runFrames m player (before ++ [t]) = (fst (animate m player t), true)) /\
  (duration m <= t - startTime m ->
   runFrames m player (before ++ t :: after) = (fst (animate m player t), false) /\
   x (fst (runFrames m player (before ++ t :: after))) = targetX m /\
   y (fst (runFrames m player (before ++ t :: after))) = targetY m).
Proof.
  intros Hd Hall. split.
  - intros Ht. apply runFrames_running; [exact Hd |].
    apply Forall_app. split; [exact Hall |]. constructor; [exact Ht | constructor].
  - intros Ht.
    rewrite (runFrames_stops m before after t player Hd Hall Ht). cbn [fst].
    split; [reflexivity |]. apply animate_done; assumption.
Qed.

Lemma runFrames_latest_frame_witness :
  let a2 := mkPlayer "A2" "A2" 100 1000 "bg-blue-500" 0 in
  let m := animatePlayerMove a2 200 1100 400 0 in
  x (fst (runFrames m a2 ([16; 33; 250] ++ 416 :: [433; 450]))) = 200 /\
  y (fst (runFrames m a2 ([16; 33; 250] ++ 416 :: [433; 450]))) = 1100.
Proof.
  intros a2 m.
  assert (Hd : 0 < duration m) by (cbn; lra).
  assert (Hall : Forall (fun s => s - startTime m < duration m) [16; 33; 250]).
  { repeat apply Forall_cons; try apply Forall_nil; cbn; lra. }
  assert (Ht : duration m <= 416 - startTime m) by (cbn; lra).
  exact (proj2 (proj2 (runFrames_latest_frame m a2 [16; 33; 250] [433; 450] 416
                         Hd Hall) Ht)).
Defined.

(** ** The view as a whole: nobody crosses the net *)

Lemma Forall_updateFirst (P : Player -> Prop) (test : Player -> bool)
    (change : Player -> Player) (players : list Player) :
  (forall p, P p -> test p = true -> P (change p)) ->
  Forall P players -> Forall P (updateFirst test change players).
Proof.
  intros Hch Hall. induction Hall as [| p ps Hp Hall IH]; cbn [updateFirst].
  - constructor.
  - destruct (test p) eqn:Ht.
    + constructor; [apply Hch; assumption | exact Hall].
    + constructor; assumption.
Qed.

Lemma inOwnHalf_refreshRadii (players : list Player) :
  Forall inOwnHalf players -> Forall inOwnHalf (refreshRadii players).
Proof.
  intros H. unfold refreshRadii. rewrite Forall_forall in *.
  intros q Hq. apply in_map_iff in Hq. destruct Hq as (p & <- & Hp).
  exact (H p Hp).
Qed.

Lemma inOwnHalf_dragMove (scaleFactor : R) (p : Player) (edx edy : R) :
  inOwnHalf (dragMove scaleFactor p edx edy).
Proof.
  unfold inOwnHalf, inHalfA, inHalfB, dragMove, startsWithA,
    PLAYER_RADIUS, COURT_WIDTH, COURT_HEIGHT, NET_Y.
  pose proof (clamp_bounds 15 (610 - 15) (x p + edx / scaleFactor)).
  destruct (String.prefix "A" (id p)) eqn:HA; cbn [id x y]; rewrite HA.
  - pose proof (clamp_bounds (670 + 15) (1340 - 15) (y p + edy / scaleFactor)).
    lra.
  - pose proof (clamp_bounds 15 (670 - 15) (y p + edy / scaleFactor)).
    lra.
Qed.

(** A frame not before the start of a motion between two points of Team
    A's half leaves the player in that half. *)
Lemma animate_in_half (m : Motion) (player : Player) (t : R) :
  0 < duration m ->
  startTime m <= t ->
  inHalfA (startX m) (startY m) ->
  inHalfA (targetX m) (targetY m) ->
  inHalfA (x (fst (animate m player t))) (y (fst (animate m player t))).
Proof.
  intros Hd Ht Hs Htg. destruct m as [sx sy tx ty dur st].
  cbn [duration startTime startX startY targetX targetY] in *.
  pose (q := mkPlayer (id player) (label player) sx sy (color player)
               (defenseRadius player)).
  assert (He : 0 <= t - st) by lra.
  pose proof (motion_frame_in_half q tx ty dur st (t - st) Hd He Hs Htg) as H.
  cbv zeta in H. replace (st + (t - st)) with t in H by lra.
  exact H.
Qed.

(** What every reachable state satisfies. *)
Definition sound (a : App) : Prop :=
  Forall inOwnHalf (roster a) /\
  Forall (fun p => defenseRadius p = calculateDefenseRadius (y p)) (roster a) /\
  (forall tid m, inFlight a = Some (tid, m) ->
     String.prefix "A" tid = true /\ 0 < duration m /\
     inHalfA (startX m) (startY m) /\ inHalfA (targetX m) (targetY m)).

Lemma refreshRadii_stored (players : list Player) :
  Forall (fun p => defenseRadius p = calculateDefenseRadius (y p))
    (refreshRadii players).
Proof.
  unfold refreshRadii. rewrite Forall_forall. intros q Hq.
  apply in_map_iff in Hq. destruct Hq as (p & <- & _). reflexivity.
Qed.

Lemma sound_app0 : sound app0.
Proof.
  split; [| split].
  - apply inOwnHalf_refreshRadii. unfold players0.
    repeat apply Forall_cons; try apply Forall_nil;
      unfold inOwnHalf, inHalfA, inHalfB; cbn; lra.
  - apply refreshRadii_stored.
  - intros tid m H. discriminate.
Qed.

Lemma sound_handle (a : App) (ev : Event) :
  sound a -> timely a ev -> sound (handle a ev).
Proof.
  intros Hsound Htime. pose proof Hsound as (Hhalf & Hrad & Hfl).
  destruct ev as [targetId scaleFactor edx edy | targetId now | t |];
    cbn [handle].
  - split; [| split]; cbn [roster inFlight].
    + apply inOwnHalf_refreshRadii. apply Forall_updateFirst; [| exact Hhalf].
      intros p _ _. apply inOwnHalf_dragMove.
    + apply refreshRadii_stored.
    + exact Hfl.
  - destruct (dragEnd (autoRotation a) (roster a) targetId now)
      as [[teammate m] |] eqn:Hde; [| exact Hsound].
    split; [| split]; cbn [roster inFlight]; try assumption.
    intros tid m' Heq. injection Heq as <- <-.
    unfold dragEnd in Hde.
    destruct (find (fun p => String.eqb (id p) targetId) (roster a))
      as [player |]; [| discriminate].
    destruct (autoRotation a && startsWithA player); [| discriminate].
    destruct (find _ (roster a)) as [tm |] eqn:Hf; [| discriminate].
    apply find_some in Hf. destruct Hf as [Hin Hc].
    apply andb_true_iff in Hc. destruct Hc as [HA _].
    injection Hde as <- <-.
    cbn [duration startX startY targetX targetY animatePlayerMove].
    split; [exact HA |]. split; [lra |]. split.
    * rewrite Forall_forall in Hhalf. specialize (Hhalf tm Hin).
      unfold inOwnHalf in Hhalf. rewrite HA in Hhalf. exact Hhalf.
    * apply solver_target_in_half.
  - destruct (inFlight a) as [[tid m] |] eqn:Hm; [| exact Hsound].
    destruct (Hfl tid m eq_refl) as (HA & Hd & Hs & Htg).
    unfold timely in Htime. rewrite Hm in Htime.
    split; [| split]; cbn [roster inFlight].
    + apply inOwnHalf_refreshRadii. apply Forall_updateFirst; [| exact Hhalf].
      intros p _ Hid. apply String.eqb_eq in Hid.
      unfold inOwnHalf.
      change (startsWithA (fst (animate m p t))) with (String.prefix "A" (id p)).
      rewrite Hid, HA.
      apply animate_in_half; assumption.
    + apply refreshRadii_stored.
    + intros tid' m' Heq.
      destruct (ltb _ 1); [| discriminate].
      injection Heq as <- <-.
      split; [exact HA | split; [exact Hd | split; assumption]].
  - split; [| split]; assumption.
Qed.

Lemma reachable_sound (a : App) : reachable a -> sound a.
Proof.
  intros H. induction H as [| a ev _ IH Ht].
  - exact sound_app0.
  - apply sound_handle; assumption.
Qed.

(** X17: in every state the view reaches from its start by steps of
    drags, ends of drags, clicks on the switch and frames that do not
    precede the start of their motion, every Team A player is in Team A's
    half and every Team B player in Team B's: nobody crosses the net; the
    stored radius of every player is the radius at its depth and lies in
    [[120, 240]], so the evaluator's fallback divisor is never used; and
    the heatmap pass draws a marker. *)
Theorem reachable_roster_invariant (a : App) :
  reachable a ->
  Forall (fun p =>
            (startsWithA p = true -> inHalfA (x p) (y p) /\ NET_Y < y p) /\
            (startsWithA p = false -> inHalfB (x p) (y p) /\ y p < NET_Y) /\
            defenseRadius p = calculateDefenseRadius (y p) /\
            120 <= defenseRadius p <= 240 /\
            or1 (defenseRadius p) = defenseRadius p)
    (roster a) /\
  marker (updateHeatmap (roster a)) <> None.
Proof.
  intros Hr. destruct (reachable_sound a Hr) as (Hhalf & Hrad & _).
  rewrite Forall_forall in Hhalf, Hrad.
  split.
  - rewrite Forall_forall. intros p Hp.
    specialize (Hhalf p Hp). specialize (Hrad p Hp).
    unfold inOwnHalf in Hhalf.
    assert (Hy : 15 <= y p <= 1325).
    { destruct (startsWithA p); unfold inHalfA, inHalfB in Hhalf; lra. }
    assert (Hrange : 120 <= defenseRadius p <= 240).
    { rewrite Hrad. split; [apply radius_ge_net | apply radius_le_back; lra]. }
    split; [| split; [| split; [exact Hrad | split; [exact Hrange |]]]].
    + intros HA. rewrite HA in Hhalf. split; [exact Hhalf |].
      unfold inHalfA, NET_Y in *. lra.
    + intros HB. rewrite HB in Hhalf. split; [exact Hhalf |].
      unfold inHalfB, NET_Y in *. lra.
    + apply or1_nonzero. lra.
  - apply marker_present. rewrite Forall_forall. intros p Hp HA.
    specialize (Hhalf p Hp). unfold inOwnHalf in Hhalf. rewrite HA in Hhalf.
    unfold inHalfA in Hhalf. lra.
Qed.

Lemma reachable_roster_invariant_witness :
  let a := handle (handle (handle (handle app0 ToggleAutoRotation)
                             (DragStep "A1" 1 350 200))
                     (DragEnd "A1" 1000))
             (AnimationFrame 1100) in
  marker (updateHeatmap (roster a)) <> None.
Proof.
  intros a.
  assert (Hr : reachable a).
  { unfold a. apply reach_event; [| cbn; lra].
    repeat (apply reach_event; [| exact I]). apply reach_start. }
  exact (proj2 (reachable_roster_invariant a Hr)).
Defined.

(** ** The heatmap and the composition of the roster *)

Lemma num_le_antisym (a b : num) : num_le a b -> num_le b a -> a = b.
Proof. intros H1 H2. num_order. Qed.

Lemma evaluate_cons_le (p : Player) (team : list Player) (cx cy : R) :
  num_le (fst (evaluate (p :: team) cx cy)) (fst (evaluate team cx cy)) /\
  num_le (snd (evaluate (p :: team) cx cy)) (snd (evaluate team cx cy)).
Proof.
  destruct team as [| q team].
  - split; apply num_le_Inf.
  - destruct (evaluate_attained (q :: team) cx cy) as [(r & Hr & Er) (d & Hd & Ed)];
      [discriminate |].
    pose proof (evaluate_lower_bound (p :: q :: team) cx cy) as Hlb.
    rewrite Forall_forall in Hlb. rewrite Er, Ed.
    split; [apply (Hlb r) | apply (Hlb d)]; now right.
Qed.

Lemma evaluate_same_members (team team' : list Player) (cx cy : R) :
  (forall p, In p team <-> In p team') ->
  evaluate team cx cy = evaluate team' cx cy.
Proof.
  intros Hmem.
  destruct team as [| q team].
  { destruct team' as [| q' team']; [reflexivity |].
    exfalso. apply (proj2 (Hmem q')). now left. }
  destruct team' as [| q' team'].
  { exfalso. apply (proj1 (Hmem q)). now left. }
  destruct (evaluate_attained (q :: team) cx cy) as [(r & Hr & Er) (d & Hd & Ed)];
    [discriminate |].
  destruct (evaluate_attained (q' :: team') cx cy)
    as [(r' & Hr' & Er') (d' & Hd' & Ed')]; [discriminate |].
  pose proof (evaluate_lower_bound (q :: team) cx cy) as Hlb.
  pose proof (evaluate_lower_bound (q' :: team') cx cy) as Hlb'.
  rewrite Forall_forall in Hlb, Hlb'.
  rewrite (surjective_pairing (evaluate (q :: team) cx cy)).
  rewrite (surjective_pairing (evaluate (q' :: team') cx cy)).
  f_equal; apply num_le_antisym.
  - rewrite Er'. apply Hlb. apply Hmem. exact Hr'.
  - rewrite Er. apply Hlb'. apply Hmem. exact Hr.
  - rewrite Ed'. apply Hlb. apply Hmem. exact Hd'.
  - rewrite Ed. apply Hlb'. apply Hmem. exact Hd.
Qed.

Lemma sample_same_evaluate (team team' : list Player) (cy : R) (st : Scan) (cx : R) :
  evaluate team cx cy = evaluate team' cx cy ->
  sample team cy st cx = sample team' cy st cx.
Proof. intros H. unfold sample. rewrite H. reflexivity. Qed.

(** X18: the pass depends on the set of Team A players only: two rosters
    with the same Team A members, in any order and however many Team B
    players each has, give the same heatmap and the same marker. *)
Theorem heatmap_same_teamA (players players' : list Player) :
  (forall p, startsWithA p = true -> (In p players <-> In p players')) ->
  updateHeatmap players = updateHeatmap players'.
Proof.
  intros Hmem. unfold updateHeatmap.
  assert (Hscan : scanGrid (filter startsWithA players) =
                  scanGrid (filter startsWithA players')).
  { rewrite !scanGrid_cells. apply fold_left_pointwise. intros s c.
    apply sample_same_evaluate. apply evaluate_same_members.
    intros p. rewrite !filter_In. split; intros [Hin HA]; split;
      try exact HA; apply (Hmem p HA); exact Hin. }
  rewrite Hscan. reflexivity.
Qed.

Lemma heatmap_same_teamA_witness :
  let a1 := mkPlayer "A1" "A1" 150 1050 "bg-blue-500" 188 in
  let a2 := mkPlayer "A2" "A2" 460 1050 "bg-blue-500" 188 in
  let b1 := mkPlayer "B1" "B1" 150 200 "bg-red-500" 204 in
  updateHeatmap [a1; a2; b1] = updateHeatmap [a2; a1].
Proof.
  intros a1 a2 b1. apply heatmap_same_teamA.
  intros p HA. cbn [In]. split.
  - intros [<- | [<- | [<- | []]]]; [now right; left | now left | discriminate].
  - intros [<- | [<- | []]]; [now right; left | now left].
Defined.

Lemma alpha_monotone (a b : num) :
  num_le a b -> clampAlpha (alphaRaw a) <= clampAlpha (alphaRaw b).
Proof.
  intros H. destruct a as [r |], b as [s |]; cbn [alphaRaw clampAlpha].
  - assert (Hrs : r <= s) by (apply ltb_false_iff; exact H). minmax_cases.
  - minmax_cases.
  - unfold num_le in H. cbn [num_ltb] in H. discriminate.
  - lra.
Qed.

(** X19: one more player on the roster never paints a sample that was
    not painted without it, and never raises the alpha of a painted sample;
    a Team B player changes nothing at all. *)
Theorem more_players_less_paint (players : list Player) (p : Player) :
  (startsWithA p = false ->
   updateHeatmap (p :: players) = updateHeatmap players) /\
  (forall (c : Z * Z) (a' : R),
     In c gridCells ->
     In (fillCell (IZR (fst c)) (IZR (snd c)) a')
        (cells (updateHeatmap (p :: players))) ->
     exists a, In (fillCell (IZR (fst c)) (IZR (snd c)) a)
                  (cells (updateHeatmap players)) /\ a' <= a).
Proof.
  split.
  - intros HB. unfold updateHeatmap. cbn [filter]. rewrite HB. reflexivity.
  - intros c a' Hc Hin.
    destruct (proj1 (in_cells_iff _ _) Hin) as (c' & _ & Hg & Heq).
    apply fillCell_inj in Heq. destruct Heq as (Hx & Hy & Ha).
    rewrite <- Hx, <- Hy in Hg, Ha.
    set (cx := IZR (fst c)) in *. set (cy := IZR (snd c)) in *.
    assert (Hle : num_le (fst (evaluate (filter startsWithA (p :: players)) cx cy))
                         (fst (evaluate (filter startsWithA players) cx cy))).
    { cbn [filter]. destruct (startsWithA p).
      - apply evaluate_cons_le.
      - apply num_le_refl. }
    exists (clampAlpha (alphaRaw (fst (evaluate (filter startsWithA players) cx cy)))).
    split.
    + apply in_cells_iff. exists c. split; [exact Hc |]. split; [| reflexivity].
      fold cx cy. eapply num_lt_le_trans; [exact Hg | exact Hle].
    + rewrite Ha. apply alpha_monotone. exact Hle.
Qed.

Lemma more_players_less_paint_witness :
  let a1 := mkPlayer "A1" "A1" 150 1050 "bg-blue-500" 188 in
  let b1 := mkPlayer "B1" "B1" 150 200 "bg-red-500" 204 in
  updateHeatmap [b1; a1] = updateHeatmap [a1].
Proof.
  intros a1 b1.
  apply (proj1 (more_players_less_paint [a1] b1)). reflexivity.
Defined.
